(** * process_roster.py: a shallow embedding and its verified properties

    The script splits a master roster (one CSV row per player) into one
    CSV file per team.  Per player it derives [astRating] and
    [athleticism], projects a 25-field record, reconciles five protected
    fields with the team's previous output file, sorts by rating and
    rewrites the team file.

    Modelling conventions.
    - A Python [str] is a [string]; a value that may be [None] (the
      [restval] of [csv.DictReader] for short rows) is a [pyval].
    - A [dict] with string keys is a [gmap string _]; the dict
      [players_by_team], whose iteration order matters, is an association
      list in first-seen order.
    - A CSV file is the list of records that [csv.reader] yields for it
      (header first); [csv.DictReader] and [csv.DictWriter] are modelled
      on such records.  Files are opened in text mode, so no field read
      from a file holds a carriage return and the records written by
      [csv.writer] are the records read back.  A path at which [open] or
      the reader raises (a directory, bytes that do not decode, a field
      over the reader's size limit) is an [Unreadable] entry of the file
      system: it holds the records read before the exception, and the
      exception.  Opening a file for writing and printing a line always
      succeed.
    - [int] is the interpreter's: the program is parametric in a
      [PythonInt], of which only the reading of plain decimal numerals
      is assumed.  The samples are evaluated with [ascii_int], the
      reading of ASCII integer literals.
    - Exceptions are values of [exn]; effectful code runs in a state and
      error monad over the file system and a trace of I/O events.
    - [a / b] on Python integers is the correctly rounded binary64
      quotient; it is modelled exactly, as a dyadic number. *)

From Stdlib Require Import ZArith Lia Ascii String DecimalString Sorted.
From stdpp Require Import gmap strings list.

Local Open Scope string_scope.

(** ** Values, exceptions *)

Inductive pyval : Type :=
  | VNone
  | VStr (s : string).

Global Instance pyval_eq_dec : EqDecision pyval.
Proof. solve_decision. Defined.

Inductive exn : Type :=
  | KeyError (k : string)
  | TypeError
  | ValueError (s : string)
  | OverflowError
  | ZeroDivisionError
  | FileNotFoundError (path : string)
  | IsADirectoryError (path : string)
  | PermissionError (path : string)
  | UnicodeDecodeError
  | CsvError (message : string).

Inductive result (A : Type) : Type :=
  | Ok (a : A)
  | Raise (e : exn).
Arguments Ok {A} a.
Arguments Raise {A} e.

Global Instance exn_eq_dec : EqDecision exn.
Proof. solve_decision. Defined.

Global Instance result_eq_dec {A} `{EqDecision A} : EqDecision (result A).
Proof. solve_decision. Defined.

Definition rbind {A B} (r : result A) (k : A -> result B) : result B :=
  match r with
  | Ok a => k a
  | Raise e => Raise e
  end.

Declare Scope res_scope.
Delimit Scope res_scope with res.
Notation "'let?' x ':=' c1 'in' c2" := (rbind c1 (fun x => c2))
  (at level 10, x name, c1 at level 100, c2 at level 200) : res_scope.
Local Open Scope res_scope.

(** [str(v)] as used when a field is written: [None] is written as the
    empty field. *)
Definition field_text (v : pyval) : string :=
  match v with
  | VNone => EmptyString
  | VStr s => s
  end.

(** Truth value of [if v:] for a string or [None]. *)
Definition truthy (v : pyval) : bool :=
  match v with
  | VNone => false
  | VStr EmptyString => false
  | VStr _ => true
  end.

(** [d[k]] on a dict with string keys. *)
Definition getitem {V} (d : gmap string V) (k : string) : result V :=
  match d !! k with
  | Some v => Ok v
  | None => Raise (KeyError k)
  end.

(** [d.get(k, default)]. *)
Definition dict_get {V} (d : gmap string V) (k : string) (default : V) : V :=
  match d !! k with
  | Some v => v
  | None => default
  end.

(** ** [int(str)] and [str(int)] *)

Definition digit_of (c : ascii) : option Z :=
  let n := nat_of_ascii c in
  if ((48 <=? n) && (n <=? 57))%nat then Some (Z.of_nat n - 48)%Z else None.

(** The value of a plain decimal numeral: one to 640 ASCII digits and
    nothing else.  640 is the smallest limit on the number of digits that
    [int] can be configured to; the default is 4300. *)
Fixpoint decimal_digits (s : string) (acc : Z) : option Z :=
  match s with
  | EmptyString => Some acc
  | String c rest =>
      match digit_of c with
      | Some d => decimal_digits rest (10 * acc + d)%Z
      | None => None
      end
  end.

Definition decimal_value (s : string) : option Z :=
  match s with
  | EmptyString => None
  | String _ _ =>
      if (String.length s <=? 640)%nat then decimal_digits s 0%Z else None
  end.

(** [int(s)] for a [str]: the integer, or [None] where [int] raises
    [ValueError].  Which strings [int] accepts beyond the plain decimal
    numerals (signs, underscores, surrounding whitespace, the decimal
    digits and the whitespace of other scripts, the limit on the number
    of digits) is the interpreter's matter and is left open. *)
Class PythonInt : Type := {
  int_str : string -> option Z;
  int_str_decimal : ∀ s z, decimal_value s = Some z -> int_str s = Some z
}.

(** [int(v)]: [TypeError] on [None], [ValueError] on a string that [int]
    does not accept. *)
Definition py_int {python : PythonInt} (v : pyval) : result Z :=
  match v with
  | VNone => Raise TypeError
  | VStr s =>
      match int_str s with
      | Some z => Ok z
      | None => Raise (ValueError s)
      end
  end.

(** *** The reading of ASCII integer literals

    [int] on a string of ASCII characters, under the default limit of
    4300 digits: surrounding whitespace (tab, line feed, vertical tab,
    form feed, carriage return, space) is stripped, a sign may come
    first, and single underscores may stand between digits.  This is the
    instance at which the samples are evaluated; every sample is ASCII.
    On a string with other characters [int] is not described by it. *)

Definition is_space (c : ascii) : bool :=
  let n := nat_of_ascii c in
  ((9 <=? n) && (n <=? 13) || (n =? 32))%nat.

Fixpoint lstrip (s : string) : string :=
  match s with
  | String c rest => if is_space c then lstrip rest else s
  | EmptyString => s
  end.

Fixpoint rstrip (s : string) : string :=
  match s with
  | EmptyString => EmptyString
  | String c rest =>
      match rstrip rest with
      | EmptyString => if is_space c then EmptyString else String c EmptyString
      | kept => String c kept
      end
  end.

Definition strip (s : string) : string := rstrip (lstrip s).

(** Digits with single underscores allowed between digits. *)
Fixpoint parse_digits (s : string) (acc : Z) (after_digit : bool) : option Z :=
  match s with
  | EmptyString => if after_digit then Some acc else None
  | String c rest =>
      match digit_of c with
      | Some d => parse_digits rest (10 * acc + d)%Z true
      | None =>
          if Ascii.eqb c "_"%char && after_digit
          then parse_digits rest acc false
          else None
      end
  end.

Fixpoint count_digits (s : string) : nat :=
  match s with
  | EmptyString => 0
  | String c rest =>
      match digit_of c with
      | Some _ => S (count_digits rest)
      | None => count_digits rest
      end
  end.

Definition parse_int (s : string) : option Z :=
  let literal := strip s in
  if (4300 <? count_digits literal)%nat then None
  else
    match literal with
    | String c rest =>
        if Ascii.eqb c "-"%char then Z.opp <$> parse_digits rest 0%Z false
        else if Ascii.eqb c "+"%char then parse_digits rest 0%Z false
        else parse_digits literal 0%Z false
    | EmptyString => None
    end.

Definition ascii_int : PythonInt.
Proof.
  refine {| int_str := parse_int |}.
  assert (Hspace : ∀ c d, digit_of c = Some d -> is_space c = false).
  { intros c d. unfold digit_of, is_space.
    destruct (48 <=? nat_of_ascii c)%nat eqn:E1; [| discriminate].
    destruct (nat_of_ascii c <=? 57)%nat eqn:E2; [| discriminate].
    intros _. apply Nat.leb_le in E1.
    destruct (9 <=? nat_of_ascii c)%nat; simpl.
    - destruct (Nat.leb_spec (nat_of_ascii c) 13); [lia |].
      simpl. apply Nat.eqb_neq. lia.
    - apply Nat.eqb_neq. lia. }
  assert (Hdigits : ∀ s acc z, decimal_digits s acc = Some z ->
            rstrip s = s ∧ parse_digits s acc true = Some z
            ∧ (count_digits s <= String.length s)%nat).
  { induction s as [| c s IH]; intros acc z Hz; simpl in *.
    - by split.
    - destruct (digit_of c) as [d |] eqn:Hd; [| discriminate].
      destruct (IH _ _ Hz) as (Hr & Hp & Hc). rewrite Hr.
      split; [| split; [done | lia]].
      destruct s; [by rewrite (Hspace c d) | done]. }
  intros s z Hs. unfold decimal_value in Hs.
  destruct s as [| c s]; [discriminate |].
  destruct (String.length (String c s) <=? 640)%nat eqn:Hlen; [| discriminate].
  apply Nat.leb_le in Hlen.
  destruct (Hdigits _ _ _ Hs) as (Hr & Hp & Hc).
  assert (Hc0 : ∃ d, digit_of c = Some d).
  { simpl in Hs. destruct (digit_of c); [eauto | discriminate]. }
  destruct Hc0 as [d Hd].
  unfold parse_int, strip.
  replace (lstrip (String c s)) with (String c s)
    by (simpl; by rewrite (Hspace c d)).
  rewrite Hr.
  replace (4300 <? count_digits (String c s))%nat with false
    by (symmetry; apply Nat.ltb_ge; lia).
  destruct (Ascii.eqb_spec c "-") as [-> | _]; [discriminate |].
  destruct (Ascii.eqb_spec c "+") as [-> | _]; [discriminate |].
  simpl in Hp |- *. rewrite Hd in Hp |- *. exact Hp.
Defined.

(** [str(n)] for an integer. *)
Definition py_str (z : Z) : string :=
  NilZero.string_of_int (Z.to_int z).

(** ** True division of integers followed by [math.floor]

    [n / d] is the binary64 number nearest to the exact quotient, ties to
    even.  The result is kept as a signed mantissa [m] and an exponent
    [e], standing for [m * 2^e], with [2^52 <= |m| <= 2^53] unless the
    result is zero or subnormal. *)

Section TrueDiv.
Local Open Scope Z_scope.

Definition round_half_even (num den : Z) : Z :=
  let q := num / den in
  let r := num mod den in
  if (den <? 2 * r) || (2 * r =? den) && Z.odd q then q + 1 else q.

(** The quotient [n / (d * 2^e)], rounded to the nearest integer. *)
Definition scaled_num (n e : Z) : Z := if 0 <=? e then n else n * 2 ^ (- e).
Definition scaled_den (d e : Z) : Z := if 0 <=? e then d * 2 ^ e else d.

Definition float_exponent (n d : Z) : Z :=
  let e0 := Z.log2 n - Z.log2 d - 52 in
  let e := if scaled_num n e0 / scaled_den d e0 <? 2 ^ 52 then e0 - 1 else e0 in
  Z.max e (-1074).

(** Magnitude of [n / d] for [0 < n] and [0 < d]. *)
Definition float_of_ratio (n d : Z) : result (Z * Z) :=
  let e := float_exponent n d in
  let m := round_half_even (scaled_num n e) (scaled_den d e) in
  if (0 <=? e) && (2 ^ 1024 <=? m * 2 ^ e) then Raise OverflowError
  else Ok (m, e).

Definition truediv (n d : Z) : result (Z * Z) :=
  if d =? 0 then Raise ZeroDivisionError
  else if n =? 0 then Ok (0, 0)
  else
    let? me := float_of_ratio (Z.abs n) (Z.abs d) in
    Ok (Z.sgn n * Z.sgn d * fst me, snd me).

(** [math.floor(x)] of the float [m * 2^e]. *)
Definition math_floor (x : Z * Z) : Z :=
  let (m, e) := x in
  if 0 <=? e then m * 2 ^ e else m / 2 ^ (- e).

(** [math.floor(n / d)]. *)
Definition floor_truediv (n d : Z) : result Z :=
  let? x := truediv n d in Ok (math_floor x).
End TrueDiv.

(** ** Rows and [process_player] *)

(** A row of [csv.DictReader]: column name to field, [VNone] for the
    columns a short record does not reach. *)
Abbreviation row := (gmap string pyval).

(** The dict literal [processed_data]: output field and the source column
    it is copied from, in the order the literal evaluates them.  The two
    derived fields are filled in by [process_player]. *)
Inductive source : Type :=
  | Col (c : string)
  | Const (v : pyval)
  | AstRating
  | Athleticism.

Global Instance source_eq_dec : EqDecision source.
Proof. solve_decision. Defined.

Definition projection : list (string * source) :=
  [ ("name", Col "name");
    ("englishName", Col "name");
    ("position", Col "position");
    ("playerType", Const (VStr EmptyString));
    ("rotationType", Const (VStr EmptyString));
    ("rating", Col "overallAttribute");
    ("insideRating", Col "closeShot");
    ("midRating", Col "midRangeShot");
    ("threeRating", Col "threePointShot");
    ("freeThrowPercent", Col "freeThrow");
    ("interiorDefense", Col "interiorDefense");
    ("perimeterDefense", Col "perimeterDefense");
    ("orbRating", Col "offensiveRebound");
    ("drbRating", Col "defensiveRebound");
    ("astRating", AstRating);
    ("stlRating", Col "steal");
    ("blkRating", Col "block");
    ("layupRating", Col "layup");
    ("standDunk", Col "standingDunk");
    ("drivingDunk", Col "drivingDunk");
    ("athleticism", Athleticism);
    ("durability", Col "overallDurability");
    ("offConst", Col "offensiveConsistency");
    ("defConst", Col "defensiveConsistency");
    ("drawFoul", Col "drawFoul") ].

(** [int(row[k])]. *)
Definition int_field {python : PythonInt} (r : row) (k : string) : result Z :=
  let? v := getitem r k in py_int v.

Definition eval_source (r : row) (ast ath : Z) (s : source) : result pyval :=
  match s with
  | Col c => getitem r c
  | Const v => Ok v
  | AstRating => Ok (VStr (py_str ast))
  | Athleticism => Ok (VStr (py_str ath))
  end.

(** Evaluates the dict literal left to right; the first missing column
    raises [KeyError]. *)
Fixpoint build_dict (r : row) (ast ath : Z) (fields : list (string * source))
  : result row :=
  match fields with
  | [] => Ok ∅
  | (k, s) :: rest =>
      let? v := eval_source r ast ath s in
      let? d := build_dict r ast ath rest in
      Ok (<[k := v]> d)
  end.

Definition process_player {python : PythonInt} (r : row) : result row :=
  let? pass_accuracy := int_field r "passAccuracy" in
  let? pass_iq := int_field r "passIQ" in
  let? pass_vision := int_field r "passVision" in
  let? ast_rating := floor_truediv (pass_accuracy + pass_iq + pass_vision) 3 in
  let? speed := int_field r "speed" in
  let? agility := int_field r "agility" in
  let? strength := int_field r "strength" in
  let? vertical := int_field r "vertical" in
  let? stamina := int_field r "stamina" in
  let? hustle := int_field r "hustle" in
  let? athleticism :=
    floor_truediv (speed + agility + strength + vertical + stamina + hustle) 6 in
  build_dict r ast_rating athleticism projection.

(** ** CSV files, [csv.DictReader] and [csv.DictWriter] *)

(** The records of a file, header first. *)
Abbreviation csv_file := (list (list string)).

(** One row of [csv.DictReader]: [dict(zip(fieldnames, record))], where a
    later column of the same name replaces an earlier one, then
    [d[key] = None] for the columns the record does not reach.  Fields
    beyond the header go under the key [None], which the script never
    reads; they are left out. *)
Definition dict_reader_row (fieldnames record : list string) : row :=
  let d := fold_left (λ d kv, <[kv.1 := VStr kv.2]> d) (zip fieldnames record) ∅ in
  fold_left (λ d key, <[key := VNone]> d) (drop (length record) fieldnames) d.

(** The first record is the header; empty records (blank lines) are
    skipped. *)
Definition dict_reader (f : csv_file) : list row :=
  match f with
  | [] => []
  | fieldnames :: records =>
      map (dict_reader_row fieldnames) (filter (λ r, r ≠ []) records)
  end.

Definition fieldnames : list string :=
  [ "name"; "englishName"; "position"; "playerType"; "rotationType";
    "rating"; "insideRating"; "midRating"; "threeRating"; "freeThrowPercent";
    "interiorDefense"; "perimeterDefense"; "orbRating"; "drbRating"; "astRating";
    "stlRating"; "blkRating"; "layupRating"; "standDunk"; "drivingDunk";
    "athleticism"; "durability"; "offConst"; "defConst"; "drawFoul" ].

(** One record of [csv.DictWriter]: [rowdict.get(key, '')] for each field
    name, [None] written as the empty field.  The writer's check for keys
    outside [fieldnames] never fires: the keys of a processed player are
    the field names (lemma [process_player_dom]). *)
Definition dict_writer_row (d : row) : list string :=
  map (λ key, field_text (dict_get d key (VStr EmptyString))) fieldnames.

(** [writeheader(); writerows(players)]. *)
Definition dict_writer (players : list row) : csv_file :=
  fieldnames :: map dict_writer_row players.

(** ** [read_existing_team_data]: the reconciliation index *)

Record protected : Type := Protected {
  p_name : pyval;
  p_englishName : pyval;
  p_position : pyval;
  p_playerType : pyval;
  p_rotationType : pyval
}.

Global Instance protected_eq_dec : EqDecision protected.
Proof. solve_decision. Defined.

(** [row.get('englishName', row.get('name', ''))]. *)
Definition index_key (r : row) : pyval :=
  dict_get r "englishName" (dict_get r "name" (VStr EmptyString)).

Definition protected_of (r : row) : protected :=
  {| p_name := dict_get r "name" (VStr EmptyString);
     p_englishName := dict_get r "englishName" (VStr EmptyString);
     p_position := dict_get r "position" (VStr EmptyString);
     p_playerType := dict_get r "playerType" (VStr EmptyString);
     p_rotationType := dict_get r "rotationType" (VStr EmptyString) |}.

(** One iteration of the loop over the rows of the existing file. *)
Definition index_step (player_info : gmap string protected) (r : row)
  : gmap string protected :=
  let english_name := index_key r in
  if truthy english_name then
    match english_name with
    | VStr k => <[k := protected_of r]> player_info
    | VNone => player_info
    end
  else player_info.

Definition index_rows (rows : list row) : gmap string protected :=
  fold_left index_step rows ∅.

(** ** Reconciliation and sorting *)

(** The body of the loop over a team's players, after [process_player]. *)
Definition reconcile (existing_player_info : gmap string protected)
    (player_row processed : row) : result row :=
  let? player_english_name := getitem player_row "name" in
  match player_english_name with
  | VStr n =>
      match existing_player_info !! n with
      | Some existing_data =>
          Ok (<["rotationType" := p_rotationType existing_data]>
              (<["playerType" := p_playerType existing_data]>
               (<["position" := p_position existing_data]>
                (<["englishName" := p_englishName existing_data]>
                 (<["name" := p_name existing_data]> processed)))))
      | None => Ok processed
      end
  | VNone => Ok processed
  end.

Definition process_one {python : PythonInt} (info : gmap string protected)
    (player_row : row) : result row :=
  let? processed := process_player player_row in
  reconcile info player_row processed.

Fixpoint process_players {python : PythonInt} (info : gmap string protected)
    (players : list row) : result (list row) :=
  match players with
  | [] => Ok []
  | player_row :: rest =>
      let? processed := process_one info player_row in
      let? others := process_players info rest in
      Ok (processed :: others)
  end.

(** [list.sort(key=..., reverse=True)]: the keys are computed first, for
    every element; the sort is stable, also when reversed.  An element is
    inserted before the first element whose key is not greater. *)
Section Sort.
Context {A : Type}.

Fixpoint insert_desc (x : Z * A) (l : list (Z * A)) : list (Z * A) :=
  match l with
  | [] => [x]
  | y :: rest =>
      if (x.1 <? y.1)%Z then y :: insert_desc x rest else x :: y :: rest
  end.

Fixpoint sort_desc (l : list (Z * A)) : list (Z * A) :=
  match l with
  | [] => []
  | x :: rest => insert_desc x (sort_desc rest)
  end.
End Sort.

Fixpoint sort_keys {python : PythonInt} (l : list row) : result (list Z) :=
  match l with
  | [] => Ok []
  | x :: rest =>
      let? k := int_field x "rating" in
      let? ks := sort_keys rest in
      Ok (k :: ks)
  end.

(** [processed_players.sort(key=lambda x: int(x['rating']), reverse=True)]. *)
Definition sort_players {python : PythonInt} (l : list row) : result (list row) :=
  let? keys := sort_keys l in
  Ok (map snd (sort_desc (zip keys l))).

(** ** The file system and the I/O monad *)

(** The I/O of a run: [os.path.exists(path)], [open(path, 'r')] and the
    reading, [open(path, 'w')] and the writing, [print(line)]. *)
Inductive event : Type :=
  | EvExists (path : string)
  | EvRead (path : string)
  | EvWrite (path : string)
  | EvPrint (line : string).

(** What a path holds: a file that the reader reads in full, yielding
    [records], or something at which the reader yields [records] and
    then raises [e]; [open] raising [e] is [Unreadable [] e]. *)
Inductive entry : Type :=
  | Readable (records : csv_file)
  | Unreadable (records : csv_file) (e : exn).

Global Instance entry_eq_dec : EqDecision entry.
Proof. solve_decision. Defined.

Record state : Type := State {
  fs : gmap string entry;
  trace : list event
}.

(** A computation returns a value or raises, and leaves the state it
    reached in either case. *)
Definition io (A : Type) : Type := state -> result A * state.

Definition io_ret {A} (a : A) : io A := λ st, (Ok a, st).

Definition io_bind {A B} (c : io A) (k : A -> io B) : io B :=
  λ st,
    match c st with
    | (Ok a, st') => k a st'
    | (Raise e, st') => (Raise e, st')
    end.

Definition io_lift {A} (r : result A) : io A := λ st, (r, st).

Declare Scope io_scope.
Delimit Scope io_scope with io.
Notation "'let!' x ':=' c1 'in' c2" := (io_bind c1 (fun x => c2))
  (at level 10, x name, c1 at level 100, c2 at level 200) : io_scope.
Local Open Scope io_scope.

Definition emit (ev : event) : io unit :=
  λ st, (Ok tt, {| fs := fs st; trace := (trace st ++ [ev])%list |}).

(** [print(line)]. *)
Definition print (line : string) : io unit := emit (EvPrint line).

(** [os.path.exists(path)]. *)
Definition path_exists (path : string) : io bool :=
  λ st,
    (Ok (bool_decide (is_Some (fs st !! path))),
     {| fs := fs st; trace := (trace st ++ [EvExists path])%list |}).

(** [open(path, 'r')]: what the reader over the file will yield. *)
Definition open_file (path : string) : io entry :=
  λ st,
    match fs st !! path with
    | Some f =>
        (Ok f, {| fs := fs st; trace := (trace st ++ [EvRead path])%list |})
    | None => (Raise (FileNotFoundError path), st)
    end.

(** [for row in csv.DictReader(f): ...], the loop as a function [body] of
    the rows it runs over.  The loop ends with the exception of its body,
    if the body raises on the rows that the reader yields, and else with
    the exception of the reader, if the reader raises. *)
Definition for_rows {A} (f : entry) (body : list row -> result A) : result A :=
  match f with
  | Readable records => body (dict_reader records)
  | Unreadable records e => let? _ := body (dict_reader records) in Raise e
  end.

(** [open(path, 'w')] and writing every record: the file is replaced. *)
Definition write_file (path : string) (f : csv_file) : io unit :=
  λ st,
    (Ok tt, {| fs := <[path := Readable f]> (fs st);
               trace := (trace st ++ [EvWrite path])%list |}).

(** The lines printed by a run, in order. *)
Definition printed (t : list event) : list string :=
  omap (λ ev, match ev with EvPrint line => Some line | _ => None end) t.

(** ** Teams *)

Definition team_list : list (string * string) :=
  [ ("Atlanta Hawks", "Hawks");
    ("Boston Celtics", "Celtics");
    ("Brooklyn Nets", "Nets");
    ("Charlotte Hornets", "Hornets");
    ("Chicago Bulls", "Bulls");
    ("Cleveland Cavaliers", "Cavaliers");
    ("Dallas Mavericks", "Mavericks");
    ("Denver Nuggets", "Nuggets");
    ("Detroit Pistons", "Pistons");
    ("Golden State Warriors", "Warriors");
    ("Houston Rockets", "Rockets");
    ("Indiana Pacers", "Pacers");
    ("Los Angeles Clippers", "Clippers");
    ("Los Angeles Lakers", "Lakers");
    ("Memphis Grizzlies", "Grizzlies");
    ("Miami Heat", "Heat");
    ("Milwaukee Bucks", "Bucks");
    ("Minnesota Timberwolves", "Timberwolves");
    ("New Orleans Pelicans", "Pelicans");
    ("New York Knicks", "Knicks");
    ("Oklahoma City Thunder", "Thunder");
    ("Orlando Magic", "Magic");
    ("Philadelphia 76ers", "76ers");
    ("Phoenix Suns", "Suns");
    ("Portland Trail Blazers", "Trail Blazers");
    ("Sacramento Kings", "Kings");
    ("San Antonio Spurs", "Spurs");
    ("Toronto Raptors", "Raptors");
    ("Utah Jazz", "Jazz");
    ("Washington Wizards", "Wizards") ].

Definition TEAM_MAPPING : gmap string string := list_to_map team_list.

(** [team_full_name in TEAM_MAPPING] and [TEAM_MAPPING[team_full_name]];
    [None] is not a key. *)
Definition team_code (team_full_name : pyval) : option string :=
  match team_full_name with
  | VStr t => TEAM_MAPPING !! t
  | VNone => None
  end.

(** [os.path.join(a, b)] on POSIX. *)
Definition path_join (a b : string) : string :=
  match b with
  | String "/" _ => b
  | _ =>
      if bool_decide (a = EmptyString) then b
      else
        match String.rev a with
        | String "/" _ => a ++ b
        | _ => a ++ "/" ++ b
        end
  end.

(** A value inside an f-string. *)
Definition fmt (v : pyval) : string :=
  match v with
  | VNone => "None"
  | VStr s => s
  end.

Definition fmt_len {A} (l : list A) : string := py_str (Z.of_nat (length l)).

Definition team_file (output_dir team_short_name : string) : string :=
  path_join output_dir (team_short_name ++ ".csv").

(** ** [read_existing_team_data], [process_roster], [main] *)

Definition read_existing_team_data (team_file_path : string)
  : io (gmap string protected) :=
  let! present := path_exists team_file_path in
  if present : bool then
    let! f := open_file team_file_path in
    io_lift (for_rows f (λ rows, Ok (index_rows rows)))
  else io_ret ∅.

(** The dict [players_by_team], in first-seen order of the teams. *)
Fixpoint group_add (team : pyval) (r : row) (groups : list (pyval * list row))
  : list (pyval * list row) :=
  match groups with
  | [] => [(team, [r])]
  | (t, rs) :: rest =>
      if decide (t = team) then (t, (rs ++ [r])%list) :: rest
      else (t, rs) :: group_add team r rest
  end.

Fixpoint group_rows (groups : list (pyval * list row)) (rows : list row)
  : result (list (pyval * list row)) :=
  match rows with
  | [] => Ok groups
  | r :: rest =>
      let? team := getitem r "team" in
      group_rows (group_add team r groups) rest
  end.

(** The body of the loop over the teams. *)
Definition process_team {python : PythonInt} (output_dir : string)
    (team_full_name : pyval) (players : list row) : io unit :=
  match team_code team_full_name with
  | Some team_short_name =>
      let output_file := team_file output_dir team_short_name in
      let! existing_player_info := read_existing_team_data output_file in
      let! _ := print ("Processing " ++ fmt team_full_name ++ " -> "
                       ++ team_short_name ++ ".csv (" ++ fmt_len players
                       ++ " players)") in
      let! processed_players :=
        io_lift (process_players existing_player_info players) in
      let! sorted := io_lift (sort_players processed_players) in
      let! _ := write_file output_file (dict_writer sorted) in
      print ("  -> Saved " ++ fmt_len sorted ++ " players to " ++ output_file)
  | None =>
      print ("Warning: No mapping found for team '" ++ fmt team_full_name ++ "'")
  end.

Fixpoint process_teams {python : PythonInt} (output_dir : string)
    (teams : list (pyval * list row)) : io unit :=
  match teams with
  | [] => io_ret tt
  | (team_full_name, players) :: rest =>
      let! _ := process_team output_dir team_full_name players in
      process_teams output_dir rest
  end.

Definition process_roster {python : PythonInt} (input_file output_dir : string)
  : io unit :=
  let! f := open_file input_file in
  let! players_by_team := io_lift (for_rows f (group_rows [])) in
  process_teams output_dir players_by_team.

Definition input_file : string := "public/data/rosters/temp.csv".
Definition output_dir : string := "public/data/rosters".

Fixpoint str_repeat (s : string) (n : nat) : string :=
  match n with
  | O => EmptyString
  | S n' => s ++ str_repeat s n'
  end.

Definition main {python : PythonInt} : io unit :=
  let! present := path_exists input_file in
  if negb present then
    print ("Error: Input file '" ++ input_file ++ "' not found!")
  else
    let! _ := print "Starting roster processing..." in
    let! _ := print ("Input file: " ++ input_file) in
    let! _ := print ("Output directory: " ++ output_dir) in
    let! _ := print (str_repeat "-" 60) in
    let! _ := process_roster input_file output_dir in
    let! _ := print (str_repeat "-" 60) in
    print "Roster processing completed!".

(** ** Vocabulary of the statements *)

(** Descending order of the sort keys. *)
Definition desc_ord {A} : Z * A -> Z * A -> Prop := λ x y, (y.1 ≤ x.1)%Z.

(** The source columns that [process_player] copies. *)
Definition source_columns : list string :=
  omap (λ ks, match ks.2 with Col c => Some c | _ => None end) projection.

Definition has_columns (r : row) : bool :=
  forallb (λ c, bool_decide (is_Some (r !! c))) source_columns.

(** The five fields that reconciliation takes from the existing file. *)
Definition protected_fields : list string :=
  [ "name"; "englishName"; "position"; "playerType"; "rotationType" ].

(** The index that [read_existing_team_data] returns for a path holding
    the file [f], or holding no file.  At an unreadable path the function
    raises; the empty index stands there. *)
Definition existing_index (f : option entry) : gmap string protected :=
  match f with
  | Some (Readable f) => index_rows (dict_reader f)
  | _ => ∅
  end.

(** The sort key of a processed player whose rating parses. *)
Definition rating_key {python : PythonInt} (x : row) : Z :=
  match int_field x "rating" with
  | Ok k => k
  | Raise _ => 0%Z
  end.

(** The rating of a processed player, when it is a plain decimal
    numeral. *)
Definition decimal_rating (x : row) : option Z :=
  match x !! "rating" with
  | Some (VStr s) => decimal_value s
  | _ => None
  end.

(** The field [k] of the row is a plain decimal numeral. *)
Definition decimal_field (r : row) (k : string) : bool :=
  match r !! k with
  | Some (VStr s) => bool_decide (is_Some (decimal_value s))
  | _ => false
  end.

(** What [process_team] writes for a mapped team, as a function of the
    team's rows and of the file found at the team's path. *)
Definition team_output {python : PythonInt} (players : list row)
    (existing : option entry) : result csv_file :=
  match existing with
  | Some (Unreadable _ e) => Raise e
  | _ =>
      let? processed := process_players (existing_index existing) players in
      let? sorted := sort_players processed in
      Ok (dict_writer sorted)
  end.

(** The source fields that are parsed as integers: the nine fields of the
    two means, and the rating, parsed by the sort. *)
Definition required_numeric : list string :=
  [ "passAccuracy"; "passIQ"; "passVision"; "speed"; "agility"; "strength";
    "vertical"; "stamina"; "hustle"; "overallAttribute" ].

(** Every required numeric field is a plain decimal numeral. *)
Definition decimal_fields (r : row) : bool :=
  forallb (decimal_field r) required_numeric.

(** Some required numeric field is absent, [None] or not an integer. *)
Definition bad_numeric {python : PythonInt} (r : row) : bool :=
  existsb (λ k, match int_field r k with Ok _ => false | Raise _ => true end)
    required_numeric.

Definition warning (t : pyval) : event :=
  EvPrint ("Warning: No mapping found for team '" ++ fmt t ++ "'").

(** The invariant of the grouping loop: team names are distinct, and
    every group holds rows of its team only. *)
Definition grouped (groups : list (pyval * list row)) (rows : list row) : Prop :=
  NoDup groups.*1 ∧
  ∀ t ps r, (t, ps) ∈ groups -> r ∈ ps -> r ∈ rows ∧ r !! "team" = Some t.

(** The text that the writer puts in column [k] for the player [d]. *)
Definition text (d : row) (k : string) : string :=
  field_text (dict_get d k (VStr EmptyString)).

(** A written player, read back. *)
Definition reread (d : row) : row :=
  dict_reader_row fieldnames (dict_writer_row d).

(** The protected fields of a written player, read back. *)
Definition ptext (d : row) : protected :=
  {| p_name := VStr (text d "name");
     p_englishName := VStr (text d "englishName");
     p_position := VStr (text d "position");
     p_playerType := VStr (text d "playerType");
     p_rotationType := VStr (text d "rotationType") |}.

(** A processed player with the five protected fields of [e]. *)
Definition with_protected (e : protected) (processed : row) : row :=
  <["rotationType" := p_rotationType e]>
    (<["playerType" := p_playerType e]>
       (<["position" := p_position e]>
          (<["englishName" := p_englishName e]>
             (<["name" := p_name e]> processed)))).

(** An indexed record as it reads once written. *)
Definition normalize (e : protected) : protected :=
  {| p_name := VStr (field_text (p_name e));
     p_englishName := VStr (field_text (p_englishName e));
     p_position := VStr (field_text (p_position e));
     p_playerType := VStr (field_text (p_playerType e));
     p_rotationType := VStr (field_text (p_rotationType e)) |}.

(** The team file, if any, has an [englishName] column. *)
Definition english_column (f : option entry) : bool :=
  match f with
  | Some (Readable (h :: _)) => bool_decide ("englishName" ∈ h)
  | _ => true
  end.

Definition existing_files_keyed (files : gmap string entry) : bool :=
  forallb (λ ts, english_column (files !! team_file output_dir ts.2)) team_list.

(** Two rows of the same team with the same non-empty display name. *)
Definition same_player (r1 r2 : row) : bool :=
  bool_decide (r1 !! "team" = r2 !! "team")
  && bool_decide (r1 !! "name" = r2 !! "name")
  && truthy (dict_get r1 "name" VNone).

Definition position_text (r : row) : string :=
  field_text (dict_get r "position" VNone).

(** Rows of one team that share a non-empty display name share the
    position. *)
Definition consistent_positions (rows : list row) : bool :=
  forallb (λ r1,
    forallb (λ r2,
      implb (same_player r1 r2)
            (bool_decide (position_text r1 = position_text r2))) rows) rows.

Definition roster_consistent (files : gmap string entry) : bool :=
  match files !! input_file with
  | Some (Readable f) => consistent_positions (dict_reader f)
  | _ => true
  end.

(** The same condition on the rows of one team. *)
Definition positions_agree (players : list row) : Prop :=
  ∀ r1 r2 n, r1 ∈ players -> r2 ∈ players ->
    r1 !! "name" = Some (VStr n) -> r2 !! "name" = Some (VStr n) ->
    n ≠ EmptyString -> position_text r1 = position_text r2.

(** The index gives every key a record whose [englishName] is the key. *)
Definition keyed (info : gmap string protected) : Prop :=
  ∀ k e, info !! k = Some e -> p_englishName e = VStr k.

(** Two processed players that are written alike and sorted alike. *)
Definition written_alike (a b : row) : Prop :=
  dict_writer_row a = dict_writer_row b ∧ a !! "rating" = b !! "rating".

(** Whether a computation returned, and the row it returned. *)
Definition is_ok {A} (r : result A) : bool :=
  match r with
  | Ok _ => true
  | Raise _ => false
  end.

Definition unwrap (r : result row) : row :=
  match r with
  | Ok d => d
  | Raise _ => ∅
  end.

(** ** Sample data *)

Definition roster_header : list string :=
  [ "team"; "name"; "position"; "overallAttribute"; "closeShot";
    "midRangeShot"; "threePointShot"; "freeThrow"; "interiorDefense";
    "perimeterDefense"; "offensiveRebound"; "defensiveRebound";
    "passAccuracy"; "passIQ"; "passVision"; "steal"; "block"; "layup";
    "standingDunk"; "drivingDunk"; "speed"; "agility"; "strength";
    "vertical"; "stamina"; "hustle"; "overallDurability";
    "offensiveConsistency"; "defensiveConsistency"; "drawFoul" ].

(** A record of the master roster; the passing fields are given, the
    athletic fields are 80, 80, 80, 80, 80, 85. *)
Definition roster_record (team name position overall : string)
    (pass_accuracy pass_iq pass_vision : string) : list string :=
  [ team; name; position; overall; "61"; "62"; "63"; "64"; "65"; "66";
    "67"; "68"; pass_accuracy; pass_iq; pass_vision; "69"; "70"; "71";
    "72"; "73"; "80"; "80"; "80"; "80"; "80"; "85"; "74"; "75"; "76"; "77" ].

Definition sample_row : row :=
  dict_reader_row roster_header
    (roster_record "Atlanta Hawks" "John Doe" "PG" "88" "70" "70" "71").

(** Passing fields whose sum is [3 * 2^53 - 1]. *)
Definition huge_row : row :=
  dict_reader_row roster_header
    (roster_record "Atlanta Hawks" "John Doe" "PG" "88"
       "9007199254740992" "9007199254740992" "9007199254740991").

(** A team file written by an earlier run and edited by hand: the player
    has a localized name and role classifications. *)
Definition existing_record (name english_name player_type : string)
  : list string :=
  [ name; english_name; "SG"; player_type; "Core"; "75"; "51"; "52"; "53";
    "54"; "55"; "56"; "57"; "58"; "59"; "60"; "61"; "62"; "63"; "64"; "65";
    "66"; "67"; "68"; "69" ].

Definition existing_file : csv_file :=
  [ fieldnames; existing_record "J. Doe" "John Doe" "Starter" ].

(** The same file with the [englishName] field left empty. *)
Definition blank_english_file : csv_file :=
  [ fieldnames; existing_record "John Doe" EmptyString "Starter" ].

(** Two rows that resolve to the same key. *)
Definition duplicate_key_file : csv_file :=
  [ fieldnames;
    existing_record "J. Doe" "John Doe" "Bench";
    existing_record "Johnny" "John Doe" "Starter" ].

(** A file of an older layout, without the [englishName] column. *)
Definition name_only_file : csv_file :=
  [ [ "name"; "position" ]; [ "John Doe"; "SG" ] ].

Definition empty_state : state := {| fs := ∅; trace := [] |}.

(** Three players of one team, with ratings 9, 10 and 9. *)
Definition jazz_rows : list row :=
  map (dict_reader_row roster_header)
    [ roster_record "Utah Jazz" "J" "SF" "9" "70" "70" "71";
      roster_record "Utah Jazz" "K" "SF" "10" "70" "70" "71";
      roster_record "Utah Jazz" "M" "SF" "9" "70" "70" "71" ].

Definition jazz_state : state :=
  (process_team (python := ascii_int) output_dir (VStr "Utah Jazz") jazz_rows
     empty_state).2.

(** A roster with a team that the mapping does not know. *)
Definition unknown_team_roster : csv_file :=
  [ roster_header;
    roster_record "Unknown Team XYZ" "Z" "C" "50" "70" "70" "71";
    roster_record "Golden State Warriors" "W" "PG" "90" "70" "70" "71" ].

(** A roster whose second row has a rating that is not an integer. *)
Definition bad_rating_roster : csv_file :=
  [ roster_header;
    roster_record "Utah Jazz" "J" "SF" "9" "70" "70" "71";
    roster_record "Utah Jazz" "K" "SF" "ten" "70" "70" "71" ].

Definition state_with_input (f : csv_file) : state :=
  {| fs := {[ input_file := Readable f ]}; trace := [] |}.

(** A roster of two teams, and a state in which one of the teams already
    has a hand-edited file. *)
Definition sample_roster : csv_file :=
  [ roster_header;
    roster_record "Utah Jazz" "J" "SF" "9" "70" "70" "71";
    roster_record "Atlanta Hawks" "John Doe" "PG" "88" "70" "70" "71";
    roster_record "Utah Jazz" "K" "SF" "10" "70" "70" "71";
    roster_record "Atlanta Hawks" "Rookie" "C" "70" "60" "61" "62" ].

Definition sample_state : state :=
  {| fs := {[ input_file := Readable sample_roster;
              "public/data/rosters/Hawks.csv" := Readable existing_file ]};
     trace := [] |}.

(** A roster in which two rows of one team share the display name but not
    the position. *)
Definition duplicate_name_roster : csv_file :=
  [ roster_header;
    roster_record "Atlanta Hawks" "A" "PG" "90" "70" "70" "71";
    roster_record "Atlanta Hawks" "A" "C" "80" "70" "70" "71" ].

(** A state in which the team file has the older layout, without the
    [englishName] column. *)
Definition legacy_state : state :=
  {| fs := {[ input_file :=
                Readable
                  [ roster_header;
                    roster_record "Atlanta Hawks" "John Doe" "PG" "88" "70" "70"
                      "71" ];
              "public/data/rosters/Hawks.csv" := Readable name_only_file ]};
     trace := [] |}.

(** The records of a readable file. *)
Definition records_of (f : option entry) : csv_file :=
  match f with
  | Some (Readable records) => records
  | _ => []
  end.

(** The columns [name], [englishName], [position] and [rating] of the
    rows of a written file. *)
Definition summary (f : option entry) : list (list string) :=
  (λ record, omap (λ i, record !! i) [0; 1; 2; 5]%nat) <$> tail (records_of f).

(** The record of [existing_file], as indexed. *)
Definition existing_protected : protected :=
  {| p_name := VStr "J. Doe"; p_englishName := VStr "John Doe";
     p_position := VStr "SG"; p_playerType := VStr "Starter";
     p_rotationType := VStr "Core" |}.

(** [sample_row] reconciled with [existing_file], with no file, and with
    [blank_english_file]. *)
Definition sample_matched : row :=
  unwrap (process_one (python := ascii_int)
            (existing_index (Some (Readable existing_file))) sample_row).

Definition sample_unmatched : row :=
  unwrap (process_one (python := ascii_int) (existing_index None) sample_row).

Definition sample_blank : row :=
  unwrap (process_one (python := ascii_int)
            (existing_index (Some (Readable blank_english_file))) sample_row).

Definition blank_english_row : row :=
  dict_reader_row fieldnames (existing_record "John Doe" EmptyString "Starter").

Definition duplicate_first : row :=
  dict_reader_row fieldnames (existing_record "J. Doe" "John Doe" "Bench").

Definition duplicate_last : row :=
  dict_reader_row fieldnames (existing_record "Johnny" "John Doe" "Starter").

Definition bad_rating_row : row :=
  dict_reader_row roster_header
    (roster_record "Utah Jazz" "K" "SF" "ten" "70" "70" "71").

(** ** Vocabulary of the further properties *)

(** The team names of a list, each at its first occurrence. *)
Definition first_seen (teams : list pyval) : list pyval :=
  fold_left (λ seen t, if decide (t ∈ seen) then seen else (seen ++ [t])%list)
    teams [].

(** The rows of team [t], in their order. *)
Definition rows_of (t : pyval) (rows : list row) : list row :=
  filter (λ r, r !! "team" = Some t) rows.

(** [players_by_team[t]], when [t] is a key. *)
Fixpoint group_lookup (groups : list (pyval * list row)) (t : pyval)
  : option (list row) :=
  match groups with
  | [] => None
  | (t', ps) :: rest => if decide (t' = t) then Some ps else group_lookup rest t
  end.

(** The nine fields of the two means, in the order [process_player]
    parses them. *)
Definition mean_fields : list string :=
  [ "passAccuracy"; "passIQ"; "passVision"; "speed"; "agility"; "strength";
    "vertical"; "stamina"; "hustle" ].

(** Every field of the two means parses as an integer of [lo .. hi]. *)
Definition in_range {python : PythonInt} (r : row) (lo hi : Z) : bool :=
  forallb (λ k, match int_field r k with
                | Ok z => (lo <=? z)%Z && (z <=? hi)%Z
                | Raise _ => false
                end) mean_fields.

(** The events of [read_existing_team_data] at a path that holds
    [existing]. *)
Definition read_events (path : string) (existing : option entry) : list event :=
  EvExists path :: match existing with
                   | Some _ => [ EvRead path ]
                   | None => []
                   end.

(** The events of a successful step of a mapped team. *)
Definition team_events (t : pyval) (short path : string) (n : nat)
    (present : bool) : list event :=
  ([ EvExists path ] ++ (if present then [ EvRead path ] else [])
   ++ [ EvPrint ("Processing " ++ fmt t ++ " -> " ++ short ++ ".csv ("
                 ++ py_str (Z.of_nat n) ++ " players)");
        EvWrite path;
        EvPrint ("  -> Saved " ++ py_str (Z.of_nat n) ++ " players to " ++ path) ])%list.

(** ** Further sample data *)

Definition sample_groups : list (pyval * list row) :=
  match group_rows [] (dict_reader sample_roster) with
  | Ok groups => groups
  | Raise _ => []
  end.

(** A roster whose header has no [team] column. *)
Definition teamless_roster : csv_file :=
  [ [ "name"; "position" ]; [ "John Doe"; "SG" ] ].

(** A roster with a header and no record. *)
Definition header_only_roster : csv_file := [ roster_header ].

Definition jazz_file : csv_file :=
  match team_output (python := ascii_int) jazz_rows
          (fs empty_state !! team_file output_dir "Jazz") with
  | Ok f => f
  | Raise _ => []
  end.

(** A state in which the path of a team file is a directory. *)
Definition directory_state : state :=
  {| fs := {[ "public/data/rosters/Jazz.csv" :=
                Unreadable [] (IsADirectoryError "public/data/rosters/Jazz.csv") ]};
     trace := [] |}.

(** Three processed players, of which only the rating is given, in
    descending order of rating. *)
Definition rated_players : list row :=
  [ {[ "rating" := VStr "10" ]}; {[ "rating" := VStr "9" ]};
    {[ "rating" := VStr "9" ]} ].

(** [sample_row] from a roster without the [steal] column, and from a
    roster with one more column. *)
Definition no_steal_row : row := delete "steal" sample_row.

Definition extra_column_row : row := <["college" := VStr "Duke"]> sample_row.

(** * Verified properties *)

(** ** Floor of a true division *)

Section TrueDivFacts.
Local Open Scope Z_scope.

Lemma round_half_even_split d k j H :
  0 < d -> round_half_even ((d * k + j) * (2 * H)) d
           = k * (2 * H) + round_half_even (j * (2 * H)) d.
Proof.
  intros Hd. unfold round_half_even.
  replace ((d * k + j) * (2 * H)) with (j * (2 * H) + (k * (2 * H)) * d) by ring.
  rewrite Z.div_add, Z.mod_add by lia.
  replace (j * (2 * H) / d + k * (2 * H)) with (j * (2 * H) / d + 2 * (k * H)) by ring.
  rewrite Z.odd_add_mul_2.
  destruct (_ || _); ring.
Qed.


Lemma round_rem_3 j H :
  0 <= j < 3 -> 1 <= H ->
  0 <= round_half_even (j * (2 * H)) 3 < 2 * H /\
  (0 < j -> 0 < round_half_even (j * (2 * H)) 3).
Proof.
  intros Hj HH. unfold round_half_even.
  assert (Hc : H = 1 \/ 2 <= H) by lia.
  assert (Hjc : j = 0 \/ j = 1 \/ j = 2) by lia.
  destruct Hc as [-> | Hc].
  - destruct Hjc as [-> | [-> | ->]]; vm_compute; intuition congruence.
  - destruct Hjc as [-> | [-> | ->]];
      destruct (_ || _); Z.div_mod_to_equations; lia.
Qed.

Lemma round_rem_6 j H :
  0 <= j < 6 -> 2 <= H ->
  0 <= round_half_even (j * (2 * H)) 6 < 2 * H /\
  (0 < j -> 0 < round_half_even (j * (2 * H)) 6).
Proof.
  intros Hj HH. unfold round_half_even.
  assert (Hc : H = 2 \/ H = 3 \/ 4 <= H) by lia.
  assert (Hjc : j = 0 \/ j = 1 \/ j = 2 \/ j = 3 \/ j = 4 \/ j = 5) by lia.
  destruct Hc as [-> | [-> | Hc]].
  - destruct Hjc as [-> | [-> | [-> | [-> | [-> | ->]]]]]; vm_compute; intuition congruence.
  - destruct Hjc as [-> | [-> | [-> | [-> | [-> | ->]]]]]; vm_compute; intuition congruence.
  - destruct Hjc as [-> | [-> | [-> | [-> | [-> | ->]]]]];
      destruct (_ || _); Z.div_mod_to_equations; lia.
Qed.

Lemma round_rem d j H :
  (d = 3 /\ 1 <= H) \/ (d = 6 /\ 2 <= H) -> 0 <= j < d ->
  0 <= round_half_even (j * (2 * H)) d < 2 * H /\
  (0 < j -> 0 < round_half_even (j * (2 * H)) d).
Proof.
  intros [[-> HH] | [-> HH]] Hj; [apply round_rem_3 | apply round_rem_6]; lia.
Qed.

Lemma floor_round_pos d s H :
  (d = 3 /\ 1 <= H) \/ (d = 6 /\ 2 <= H) ->
  round_half_even (s * (2 * H)) d / (2 * H) = s / d.
Proof.
  intros Hd.
  assert (0 < d) by lia.
  rewrite (Z.div_mod s d) at 1 by lia.
  rewrite round_half_even_split by lia.
  destruct (round_rem d (s mod d) H Hd) as [Hr _].
  { apply Z.mod_pos_bound; lia. }
  rewrite Z.add_comm, Z.div_add by lia.
  rewrite Z.div_small by lia. lia.
Qed.

Lemma round_half_even_0 d : 0 < d -> round_half_even 0 d = 0.
Proof.
  intros Hd. unfold round_half_even.
  rewrite Z.div_0_l, Z.mod_0_l by lia.
  replace (d <? 2 * 0) with false by (symmetry; apply Z.ltb_ge; lia).
  replace (2 * 0 =? d) with false by (symmetry; apply Z.eqb_neq; lia).
  reflexivity.
Qed.

Lemma floor_round_neg d s H :
  (d = 3 /\ 1 <= H) \/ (d = 6 /\ 2 <= H) ->
  (- round_half_even (s * (2 * H)) d) / (2 * H) = (- s) / d.
Proof.
  intros Hd.
  assert (0 < d) by lia.
  pose proof (Z.mod_pos_bound s d ltac:(lia)) as Hj.
  pose proof (Z.div_mod s d ltac:(lia)) as Hs.
  destruct (round_rem d (s mod d) H Hd Hj) as [Hr Hp].
  rewrite Hs at 1. rewrite round_half_even_split by lia.
  remember (s mod d) as j eqn:Ej. remember (s / d) as k eqn:Ek.
  remember (round_half_even (j * (2 * H)) d) as x eqn:Ex.
  replace (- s) with (- j + (- k) * d) by lia.
  replace (- (k * (2 * H) + x)) with (- x + (- k) * (2 * H)) by ring.
  rewrite !Z.div_add by lia.
  f_equal.
  destruct (Z.eq_dec j 0) as [Hj0 | Hj0].
  - subst j. rewrite Hj0 in Ex. rewrite Z.mul_0_l, round_half_even_0 in Ex by lia.
    rewrite Hj0, Ex. reflexivity.
  - assert (0 < x) by (apply Hp; lia).
    transitivity (-1); [|symmetry]; Z.div_mod_to_equations; nia.
Qed.

Lemma float_exponent_range n d :
  d = 3 \/ d = 6 -> 0 < n < 3 * 2 ^ 52 ->
  -60 <= float_exponent n d <= - (d / 3).
Proof.
  intros Hd Hn.
  assert (HL : 0 <= Z.log2 n < 54).
  { split; [apply Z.log2_nonneg |]. apply Z.log2_lt_pow2; lia. }
  unfold float_exponent.
  destruct Hd as [-> | ->].
  - change (Z.log2 3) with 1. change (3 / 3) with 1.
    destruct (Z.eq_dec (Z.log2 n) 53) as [E | E].
    + rewrite E. change (53 - 1 - 52) with 0.
      change (scaled_num n 0) with n. change (scaled_den 3 0) with 3.
      destruct (Z.ltb_spec (n / 3) (2 ^ 52)) as [Hlt | Hge]; [lia |].
      exfalso. Z.div_mod_to_equations. lia.
    + destruct (_ <? _); lia.
  - change (Z.log2 6) with 2. change (6 / 3) with 2.
    destruct (Z.eq_dec (Z.log2 n) 53) as [E | E].
    + rewrite E. change (53 - 2 - 52) with (-1).
      change (scaled_num n (-1)) with (n * 2). change (scaled_den 6 (-1)) with 6.
      destruct (Z.ltb_spec (n * 2 / 6) (2 ^ 52)) as [Hlt | Hge]; [lia |].
      exfalso. Z.div_mod_to_equations. lia.
    + destruct (_ <? _); lia.
Qed.

Lemma pow2_double t : 1 <= t -> 2 ^ t = 2 * 2 ^ (t - 1) /\ 1 <= 2 ^ (t - 1) /\ (2 <= t -> 2 <= 2 ^ (t - 1)).
Proof.
  intros Ht. split; [| split].
  - replace t with (Z.succ (t - 1)) at 1 by lia. apply Z.pow_succ_r. lia.
  - pose proof (Z.pow_pos_nonneg 2 (t - 1)). lia.
  - intros H2. change 2 with (2 ^ 1) at 1. apply Z.pow_le_mono_r; lia.
Qed.

Lemma float_of_ratio_small n d :
  d = 3 \/ d = 6 -> 0 < n < 3 * 2 ^ 52 ->
  exists m e, float_of_ratio n d = Ok (m, e) /\ e < 0 /\
    m / 2 ^ (- e) = n / d /\ (- m) / 2 ^ (- e) = (- n) / d.
Proof.
  intros Hd Hn.
  pose proof (float_exponent_range n d Hd Hn) as He.
  unfold float_of_ratio.
  remember (float_exponent n d) as e eqn:Ee.
  assert (Hd3 : 1 <= d / 3 /\ (d = 6 -> 2 <= d / 3)).
  { destruct Hd as [-> | ->]; split; try discriminate; intros; 
      repeat match goal with |- context [?a / 3] => change (a / 3) with 1 || change (a / 3) with 2 end; lia. }
  assert (Hneg : (0 <=? e) = false) by (apply Z.leb_gt; lia).
  rewrite Hneg. simpl.
  unfold scaled_num, scaled_den. rewrite Hneg.
  destruct (pow2_double (- e) ltac:(lia)) as (Hp & H1 & H2).
  exists (round_half_even (n * 2 ^ (- e)) d), e.
  split; [reflexivity |]. split; [lia |].
  rewrite Hp.
  split; [apply floor_round_pos | apply floor_round_neg];
    (destruct Hd as [-> | ->]; [left | right]; (split; [reflexivity | lia])).
Qed.

Theorem floor_truediv_exact s d :
  d = 3 \/ d = 6 -> Z.abs s < 3 * 2 ^ 52 ->
  floor_truediv s d = Ok (s / d).
Proof.
  intros Hd Hs. unfold floor_truediv, truediv.
  replace (d =? 0) with false by (symmetry; apply Z.eqb_neq; lia).
  destruct (Z.eqb_spec s 0) as [-> | Hs0].
  - simpl. rewrite Z.div_0_l by lia. reflexivity.
  - replace (Z.abs d) with d by lia.
    destruct (float_of_ratio_small (Z.abs s) d Hd ltac:(lia)) as (m & e & Hf & He & Hp & Hn).
    rewrite Hf. simpl.
    replace (0 <=? e) with false by (symmetry; apply Z.leb_gt; lia).
    replace (Z.sgn d) with 1 by lia.
    f_equal. destruct (Z.lt_total s 0) as [Hneg | [? | Hpos]]; [| lia |].
    + replace (Z.sgn s) with (-1) by lia. replace (-1 * 1 * m) with (- m) by ring.
      rewrite Hn. f_equal. lia.
    + replace (Z.sgn s) with 1 by lia. replace (1 * 1 * m) with m by ring.
      rewrite Hp. f_equal. lia.
Qed.
End TrueDivFacts.

(** ** The stable descending sort *)

Section SortFacts.
Context {A : Type}.
Implicit Types (x : Z * A) (l : list (Z * A)).

Lemma insert_desc_perm x l : insert_desc x l ≡ₚ x :: l.
Proof.
  induction l as [| y l IH]; simpl; [done |].
  destruct (x.1 <? y.1)%Z; [| done].
  rewrite IH. apply Permutation_swap.
Qed.

Lemma sort_desc_perm l : sort_desc l ≡ₚ l.
Proof.
  induction l as [| x l IH]; simpl; [done |].
  by rewrite insert_desc_perm, IH.
Qed.

Lemma insert_desc_sorted x l :
  StronglySorted desc_ord l -> StronglySorted desc_ord (insert_desc x l).
Proof.
  induction 1 as [| y l Hs IH Hall]; simpl.
  - repeat constructor.
  - destruct (Z.ltb_spec x.1 y.1) as [Hlt | Hge].
    + constructor; [done |].
      rewrite insert_desc_perm. constructor; [unfold desc_ord; lia | done].
    + constructor; [by constructor |].
      constructor; [done |].
      eapply Forall_impl; [exact Hall |]. unfold desc_ord. intros z Hz. simpl in *. lia.
Qed.

Lemma sort_desc_sorted l : StronglySorted desc_ord (sort_desc l).
Proof.
  induction l as [| x l IH]; simpl; [constructor |].
  by apply insert_desc_sorted.
Qed.

Lemma insert_desc_stable (k : Z) x l :
  filter (λ y, y.1 = k) (insert_desc x l) = filter (λ y, y.1 = k) (x :: l).
Proof.
  induction l as [| y l IH]; simpl; [done |].
  destruct (Z.ltb_spec x.1 y.1) as [Hlt | Hge]; [| done].
  rewrite (filter_cons _ y (insert_desc x l)), IH.
  rewrite !filter_cons.
  repeat case_decide; simpl in *; try done; lia.
Qed.

Lemma sort_desc_stable (k : Z) l :
  filter (λ y, y.1 = k) (sort_desc l) = filter (λ y, y.1 = k) l.
Proof.
  induction l as [| x l IH]; simpl; [done |].
  rewrite insert_desc_stable, !filter_cons, IH. done.
Qed.
End SortFacts.

Lemma insert_desc_map {A B} (f : A -> B) (x : Z * A) (l : list (Z * A)) :
  insert_desc (prod_map id f x) (map (prod_map id f) l)
  = map (prod_map id f) (insert_desc x l).
Proof.
  induction l as [| y l IH]; simpl; [done |].
  destruct (x.1 <? y.1)%Z; simpl; [by rewrite IH | done].
Qed.

Lemma sort_desc_map {A B} (f : A -> B) (l : list (Z * A)) :
  sort_desc (map (prod_map id f) l) = map (prod_map id f) (sort_desc l).
Proof.
  induction l as [| x l IH]; simpl; [done |].
  by rewrite IH, insert_desc_map.
Qed.

(** ** Inversion of the error monad *)

(** Closed decidable goals, by evaluation. *)
Ltac by_compute := apply (bool_decide_unpack _); vm_compute; exact I.

Lemma rbind_ok {A B} (c : result A) (k : A -> result B) (b : B) :
  rbind c k = Ok b -> ∃ a, c = Ok a ∧ k a = Ok b.
Proof. destruct c as [a | e]; simpl; [eauto | discriminate]. Qed.

(** An element that differs in its constructor from every element of an
    explicit list is not in the list. *)
Ltac not_in_list H :=
  repeat (apply elem_of_cons in H as [H | H]; [discriminate H |]);
  by apply elem_of_nil in H.

Lemma ok_unwrap (r : result row) : is_ok r = true -> r = Ok (unwrap r).
Proof. by destruct r. Qed.

Lemma io_ok_snd (c : io unit) (st : state) :
  (c st).1 = Ok tt -> c st = (Ok tt, (c st).2).
Proof. destruct (c st) as [r st']. simpl. by intros ->. Qed.

Ltac inv_res :=
  repeat match goal with
  | H : rbind _ _ = Ok _ |- _ =>
      let a := fresh "a" in
      let Ha := fresh "Ha" in
      apply rbind_ok in H; destruct H as (a & Ha & H)
  | H : Ok _ = Ok _ |- _ => injection H as H
  | H : Raise _ = Ok _ |- _ => discriminate H
  end.

Section Facts.
Context {python : PythonInt}.

(** ** [int] on plain decimal numerals *)

Lemma py_int_decimal (s : string) (z : Z) :
  decimal_value s = Some z -> py_int (VStr s) = Ok z.
Proof. intros H. unfold py_int. by rewrite (int_str_decimal s z H). Qed.

Lemma int_field_decimal (r : row) (k s : string) (z : Z) :
  r !! k = Some (VStr s) -> decimal_value s = Some z -> int_field r k = Ok z.
Proof.
  intros Hk Hs. unfold int_field, getitem. rewrite Hk. simpl.
  by apply py_int_decimal.
Qed.

(** ** [process_player] *)

Lemma projection_nodup : NoDup projection.*1.
Proof. by_compute. Qed.

Lemma projection_keys : projection.*1 = fieldnames.
Proof. reflexivity. Qed.

Lemma build_dict_lookup r ast ath fields d k s :
  build_dict r ast ath fields = Ok d ->
  NoDup fields.*1 ->
  (k, s) ∈ fields ->
  ∃ v, eval_source r ast ath s = Ok v ∧ d !! k = Some v.
Proof.
  revert d. induction fields as [| [k' s'] fields IH]; intros d Hb Hnd Hin.
  - by apply elem_of_nil in Hin.
  - simpl in Hb. inv_res. subst d.
    apply NoDup_cons in Hnd as [Hk' Hnd].
    apply elem_of_cons in Hin as [Heq | Hin].
    + injection Heq as -> ->. eexists. split; [done |]. apply lookup_insert_eq.
    + destruct (IH _ Ha0 Hnd Hin) as (v & Hv & Hl).
      exists v. split; [done |].
      rewrite lookup_insert_ne; [done |].
      intros ->. apply Hk'. apply list_elem_of_fmap. by exists (k, s).
Qed.

Lemma build_dict_none r ast ath fields d k :
  build_dict r ast ath fields = Ok d -> k ∉ fields.*1 -> d !! k = None.
Proof.
  revert d. induction fields as [| [k' s'] fields IH]; intros d Hb Hk; simpl in *.
  - inv_res. by subst d.
  - inv_res. subst d. apply not_elem_of_cons in Hk as [Hne Hk].
    rewrite lookup_insert_ne by done. by apply IH.
Qed.

Lemma build_dict_ok r ast ath fields :
  (∀ k c, (k, Col c) ∈ fields -> is_Some (r !! c)) ->
  ∃ d, build_dict r ast ath fields = Ok d.
Proof.
  induction fields as [| [k s] fields IH]; intros Hcols; simpl; [eauto |].
  destruct IH as [d Hd].
  { intros k' c Hin. apply (Hcols k' c). by right. }
  rewrite Hd.
  destruct s as [c | v | |]; simpl; eauto.
  destruct (Hcols k c) as [v Hv]; [by left |].
  unfold getitem. rewrite Hv. simpl. eauto.
Qed.

(** What a successful [process_player] computed. *)
Lemma process_player_inv r p :
  process_player r = Ok p ->
  ∃ a b c ast s1 s2 s3 s4 s5 s6 ath,
    int_field r "passAccuracy" = Ok a ∧ int_field r "passIQ" = Ok b ∧
    int_field r "passVision" = Ok c ∧
    floor_truediv (a + b + c) 3 = Ok ast ∧
    int_field r "speed" = Ok s1 ∧ int_field r "agility" = Ok s2 ∧
    int_field r "strength" = Ok s3 ∧ int_field r "vertical" = Ok s4 ∧
    int_field r "stamina" = Ok s5 ∧ int_field r "hustle" = Ok s6 ∧
    floor_truediv (s1 + s2 + s3 + s4 + s5 + s6) 6 = Ok ath ∧
    build_dict r ast ath projection = Ok p.
Proof.
  unfold process_player. intros H. inv_res.
  repeat eexists; eassumption.
Qed.

(** A copied field holds the source column. *)
Lemma process_player_col r p k c :
  process_player r = Ok p -> (k, Col c) ∈ projection ->
  is_Some (r !! c) ∧ p !! k = r !! c.
Proof.
  intros Hp Hin.
  destruct (process_player_inv _ _ Hp)
    as (a & b & c' & ast & s1 & s2 & s3 & s4 & s5 & s6 & ath & H).
  destruct H as (_ & _ & _ & _ & _ & _ & _ & _ & _ & _ & _ & Hb).
  destruct (build_dict_lookup _ _ _ _ _ _ _ Hb projection_nodup Hin) as (v & Hv & Hl).
  simpl in Hv. unfold getitem in Hv.
  destruct (r !! c) as [w |] eqn:E; [| discriminate].
  injection Hv as ->. split; [eauto | done].
Qed.

Lemma process_player_const r p k v :
  process_player r = Ok p -> (k, Const v) ∈ projection -> p !! k = Some v.
Proof.
  intros Hp Hin.
  destruct (process_player_inv _ _ Hp)
    as (a & b & c' & ast & s1 & s2 & s3 & s4 & s5 & s6 & ath & H).
  destruct H as (_ & _ & _ & _ & _ & _ & _ & _ & _ & _ & _ & Hb).
  destruct (build_dict_lookup _ _ _ _ _ _ _ Hb projection_nodup Hin) as (w & Hw & Hl).
  simpl in Hw. by injection Hw as ->.
Qed.

(** The keys of a processed player are the field names of the writer. *)
Lemma process_player_dom r p k :
  process_player r = Ok p -> is_Some (p !! k) ↔ k ∈ fieldnames.
Proof.
  intros Hp.
  destruct (process_player_inv _ _ Hp)
    as (a & b & c' & ast & s1 & s2 & s3 & s4 & s5 & s6 & ath & H).
  destruct H as (_ & _ & _ & _ & _ & _ & _ & _ & _ & _ & _ & Hb).
  rewrite <- projection_keys. split.
  - intros Hs. destruct (decide (k ∈ projection.*1)) as [|Hn]; [done |].
    rewrite (build_dict_none _ _ _ _ _ _ Hb Hn) in Hs. by destruct Hs.
  - intros Hin. apply list_elem_of_fmap in Hin as ([k' s] & -> & Hin).
    destruct (build_dict_lookup _ _ _ _ _ _ _ Hb projection_nodup Hin) as (v & _ & Hl).
    simpl. eauto.
Qed.

Lemma has_columns_spec r k c :
  has_columns r = true -> (k, Col c) ∈ projection -> is_Some (r !! c).
Proof.
  unfold has_columns. rewrite forallb_forall. intros Hall Hin.
  eapply bool_decide_eq_true_1, Hall.
  apply list_elem_of_In. unfold source_columns.
  apply list_elem_of_omap. by exists (k, Col c).
Qed.

(** C3 (as amended).  When the nine passing and athletic fields parse as
    integers, the other source columns are present, and each of the two
    sums is below [3 * 2^52] in magnitude, [process_player] succeeds and
    [astRating] and [athleticism] are the decimal strings of the floors of
    the two means. *)
Theorem C3_derived_ratings_floor (r : row) (a b c s1 s2 s3 s4 s5 s6 : Z) :
  int_field r "passAccuracy" = Ok a ->
  int_field r "passIQ" = Ok b ->
  int_field r "passVision" = Ok c ->
  int_field r "speed" = Ok s1 ->
  int_field r "agility" = Ok s2 ->
  int_field r "strength" = Ok s3 ->
  int_field r "vertical" = Ok s4 ->
  int_field r "stamina" = Ok s5 ->
  int_field r "hustle" = Ok s6 ->
  has_columns r = true ->
  (Z.abs (a + b + c) < 3 * 2 ^ 52)%Z ->
  (Z.abs (s1 + s2 + s3 + s4 + s5 + s6) < 3 * 2 ^ 52)%Z ->
  ∃ p, process_player r = Ok p ∧
    p !! "astRating" = Some (VStr (py_str ((a + b + c) `div` 3))) ∧
    p !! "athleticism"
      = Some (VStr (py_str ((s1 + s2 + s3 + s4 + s5 + s6) `div` 6))).
Proof.
  intros Ha Hb Hc H1 H2 H3 H4 H5 H6 Hcols Hast Hath.
  destruct (build_dict_ok r ((a + b + c) `div` 3)
              ((s1 + s2 + s3 + s4 + s5 + s6) `div` 6) projection) as [p Hp].
  { intros k col. by apply has_columns_spec. }
  exists p.
  assert (Hrun : process_player r = Ok p).
  { unfold process_player.
    rewrite Ha, Hb, Hc. simpl.
    rewrite (floor_truediv_exact _ 3) by (auto; lia). simpl.
    rewrite H1, H2, H3, H4, H5, H6. simpl.
    rewrite (floor_truediv_exact _ 6) by (auto; lia). simpl.
    exact Hp. }
  split; [exact Hrun |].
  split.
  - destruct (build_dict_lookup _ _ _ _ _ "astRating" AstRating Hp projection_nodup)
      as (v & Hv & Hl).
    { by_compute. }
    simpl in Hv. by injection Hv as <-.
  - destruct (build_dict_lookup _ _ _ _ _ "athleticism" Athleticism Hp projection_nodup)
      as (v & Hv & Hl).
    { by_compute. }
    simpl in Hv. by injection Hv as <-.
Qed.


(** The passing fields of [huge_row] are plain decimal numerals, so the
    row is processed alike whatever [int] makes of other strings: the
    true division rounds the mean up to [2^53]. *)
Lemma huge_row_rounds_up :
  ∃ p, process_player huge_row = Ok p ∧
    p !! "astRating" = Some (VStr "9007199254740992").
Proof.
  assert (Hint : ∀ k s z, huge_row !! k = Some (VStr s) -> decimal_value s = Some z ->
            int_field huge_row k = Ok z) by apply int_field_decimal.
  destruct (build_dict_ok huge_row 9007199254740992 80 projection) as [p Hp].
  { intros k col. apply has_columns_spec. vm_compute. reflexivity. }
  exists p. split.
  - unfold process_player.
    rewrite (Hint "passAccuracy" "9007199254740992" 9007199254740992%Z)
      by (vm_compute; reflexivity).
    rewrite (Hint "passIQ" "9007199254740992" 9007199254740992%Z)
      by (vm_compute; reflexivity).
    rewrite (Hint "passVision" "9007199254740991" 9007199254740991%Z)
      by (vm_compute; reflexivity).
    rewrite (Hint "speed" "80" 80%Z), (Hint "agility" "80" 80%Z),
      (Hint "strength" "80" 80%Z), (Hint "vertical" "80" 80%Z),
      (Hint "stamina" "80" 80%Z), (Hint "hustle" "85" 85%Z)
      by (vm_compute; reflexivity).
    cbn [rbind].
    replace (floor_truediv (9007199254740992 + 9007199254740992 + 9007199254740991) 3)
      with (Ok 9007199254740992%Z) by (vm_compute; reflexivity).
    replace (floor_truediv (80 + 80 + 80 + 80 + 80 + 85) 6)
      with (Ok 80%Z) by (vm_compute; reflexivity).
    exact Hp.
  - destruct (build_dict_lookup _ _ _ _ _ "astRating" AstRating Hp projection_nodup)
      as (v & Hv & Hl); [by_compute |].
    simpl in Hv. injection Hv as <-. exact Hl.
Qed.

(** ** Reconciliation *)

Lemma reconcile_matched info (r p : row) n e :
  r !! "name" = Some (VStr n) -> info !! n = Some e ->
  reconcile info r p
  = Ok (<["rotationType" := p_rotationType e]>
        (<["playerType" := p_playerType e]>
         (<["position" := p_position e]>
          (<["englishName" := p_englishName e]>
           (<["name" := p_name e]> p))))).
Proof.
  intros Hn He. unfold reconcile, getitem. rewrite Hn. simpl. by rewrite He.
Qed.

Lemma reconcile_unmatched info (r p : row) nm :
  r !! "name" = Some nm -> (∀ n, nm = VStr n -> info !! n = None) ->
  reconcile info r p = Ok p.
Proof.
  intros Hn Hnone. unfold reconcile, getitem. rewrite Hn. simpl.
  destruct nm as [| n]; [done |]. by rewrite (Hnone n).
Qed.

Lemma process_one_inv info r out :
  process_one info r = Ok out ->
  ∃ fresh, process_player r = Ok fresh ∧ reconcile info r fresh = Ok out.
Proof. unfold process_one. intros H. inv_res. eauto. Qed.

Lemma protected_fields_other k :
  k ∉ protected_fields ->
  k ≠ "name" ∧ k ≠ "englishName" ∧ k ≠ "position" ∧ k ≠ "playerType"
  ∧ k ≠ "rotationType".
Proof. unfold protected_fields. set_solver. Qed.

(** The fields of a reconciled player that matched the index. *)
Lemma process_one_matched info r n e out :
  r !! "name" = Some (VStr n) -> info !! n = Some e ->
  process_one info r = Ok out ->
  out !! "name" = Some (p_name e) ∧
  out !! "englishName" = Some (p_englishName e) ∧
  out !! "position" = Some (p_position e) ∧
  out !! "playerType" = Some (p_playerType e) ∧
  out !! "rotationType" = Some (p_rotationType e) ∧
  ∃ fresh, process_player r = Ok fresh ∧
    ∀ k, k ∉ protected_fields -> out !! k = fresh !! k.
Proof.
  intros Hn He Hout.
  destruct (process_one_inv _ _ _ Hout) as (fresh & Hf & Hr).
  rewrite (reconcile_matched _ _ _ _ _ Hn He) in Hr. injection Hr as <-.
  repeat split; try by simplify_map_eq.
  exists fresh. split; [done |]. intros k Hk.
  destruct (protected_fields_other k Hk) as (? & ? & ? & ? & ?).
  by simplify_map_eq.
Qed.

(** C1.  A player whose display name is a key of the reconciliation index
    gets the five protected fields of the indexed record; every other
    field is the one [process_player] computes from the source row: the
    copied source column, or the derived [astRating] and [athleticism]. *)
Theorem C1_matched_player_keeps_protected_fields
    (info : gmap string protected) (r : row) (n : string) (e : protected)
    (out : row) :
  r !! "name" = Some (VStr n) ->
  info !! n = Some e ->
  process_one info r = Ok out ->
  out !! "name" = Some (p_name e) ∧
  out !! "englishName" = Some (p_englishName e) ∧
  out !! "position" = Some (p_position e) ∧
  out !! "playerType" = Some (p_playerType e) ∧
  out !! "rotationType" = Some (p_rotationType e) ∧
  ∃ fresh, process_player r = Ok fresh ∧
    (∀ k, k ∉ protected_fields -> out !! k = fresh !! k) ∧
    (∀ k c, (k, Col c) ∈ projection -> k ∉ protected_fields ->
       out !! k = r !! c) ∧
    out !! "astRating" = fresh !! "astRating" ∧
    out !! "athleticism" = fresh !! "athleticism".
Proof.
  intros Hn He Hout.
  destruct (process_one_matched _ _ _ _ _ Hn He Hout)
    as (H1 & H2 & H3 & H4 & H5 & fresh & Hf & Hrest).
  repeat (split; [assumption |]).
  exists fresh. split; [done |]. split; [done |]. split.
  - intros k c Hin Hk. rewrite (Hrest k Hk).
    by destruct (process_player_col _ _ _ _ Hf Hin).
  - split; apply Hrest; by_compute.
Qed.


(** What [read_existing_team_data] returns, and the events it performs. *)
Lemma read_existing_team_data_spec path st :
  read_existing_team_data path st
  = (match fs st !! path with
     | Some (Unreadable _ e) => Raise e
     | existing => Ok (existing_index existing)
     end,
     {| fs := fs st; trace := (trace st ++ read_events path (fs st !! path))%list |}).
Proof.
  unfold read_existing_team_data, io_bind, path_exists, open_file, io_ret, io_lift,
    read_events.
  simpl. destruct (fs st !! path) as [[f | f e] |] eqn:E; simpl.
  - rewrite E. by rewrite <- app_assoc.
  - rewrite E. by rewrite <- app_assoc.
  - done.
Qed.

Lemma read_events_no_write path existing p :
  EvWrite p ∉ read_events path existing.
Proof.
  unfold read_events. intros Hp. destruct existing; simpl in Hp; not_in_list Hp.
Qed.

(** C9.  A player whose display name is not a key of the index read for
    the team (in particular when the team has no output file) gets the
    source row's name as [englishName] and empty [playerType] and
    [rotationType]. *)
Theorem C9_unmatched_player_defaults
    (file : option entry) (r : row) (nm : pyval) (out : row) :
  r !! "name" = Some nm ->
  file = None ∨ (∀ n, nm = VStr n -> existing_index file !! n = None) ->
  process_one (existing_index file) r = Ok out ->
  out !! "englishName" = Some nm ∧
  out !! "playerType" = Some (VStr EmptyString) ∧
  out !! "rotationType" = Some (VStr EmptyString).
Proof.
  intros Hn Hfile Hout.
  assert (Hnone : ∀ n, nm = VStr n -> existing_index file !! n = None).
  { destruct Hfile as [-> | H]; [| exact H]. intros n _. apply lookup_empty. }
  destruct (process_one_inv _ _ _ Hout) as (fresh & Hf & Hr).
  rewrite (reconcile_unmatched _ _ _ _ Hn Hnone) in Hr. injection Hr as <-.
  split; [| split].
  - destruct (process_player_col r fresh "englishName" "name" Hf) as [_ ->];
      [by_compute | done].
  - apply (process_player_const r); [done | by_compute].
  - apply (process_player_const r); [done | by_compute].
Qed.


(** ** The reconciliation index *)

Lemma index_step_key info r k :
  index_key r = VStr k -> k ≠ EmptyString ->
  index_step info r = <[k := protected_of r]> info.
Proof.
  intros Hk Hne. unfold index_step. rewrite Hk.
  destruct k; [done | reflexivity].
Qed.

Lemma index_step_other info r k :
  index_key r ≠ VStr k -> index_step info r !! k = info !! k.
Proof.
  intros Hk. unfold index_step.
  destruct (index_key r) as [| k']; simpl; [done |].
  destruct k'; [done |].
  rewrite lookup_insert_ne; [done | congruence].
Qed.

Lemma index_fold_other rows info k :
  (∀ r, r ∈ rows -> index_key r ≠ VStr k) ->
  fold_left index_step rows info !! k = info !! k.
Proof.
  revert info. induction rows as [| r rows IH]; intros info Hall; simpl; [done |].
  rewrite IH by (intros r' Hr'; apply Hall; by right).
  apply index_step_other, Hall. by left.
Qed.

Lemma index_rows_last before r after k :
  index_key r = VStr k -> k ≠ EmptyString ->
  (∀ r', r' ∈ after -> index_key r' ≠ VStr k) ->
  index_rows (before ++ r :: after) !! k = Some (protected_of r).
Proof.
  intros Hk Hne Hafter. unfold index_rows.
  rewrite fold_left_app. simpl.
  rewrite index_fold_other by done.
  rewrite (index_step_key _ _ _ Hk Hne). apply lookup_insert_eq.
Qed.

(** C10.  When several rows of the existing file resolve to the same key,
    the index holds the protected fields of the last of them, and a
    player matching the key is reconciled with those. *)
Theorem C10_last_duplicate_wins
    (before after : list row) (r : row) (k : string) :
  index_key r = VStr k ->
  k ≠ EmptyString ->
  (∀ r', r' ∈ after -> index_key r' ≠ VStr k) ->
  index_rows (before ++ r :: after) !! k = Some (protected_of r) ∧
  ∀ player_row out,
    player_row !! "name" = Some (VStr k) ->
    process_one (index_rows (before ++ r :: after)) player_row = Ok out ->
    out !! "name" = Some (p_name (protected_of r)) ∧
    out !! "englishName" = Some (p_englishName (protected_of r)) ∧
    out !! "position" = Some (p_position (protected_of r)) ∧
    out !! "playerType" = Some (p_playerType (protected_of r)) ∧
    out !! "rotationType" = Some (p_rotationType (protected_of r)).
Proof.
  intros Hk Hne Hafter.
  pose proof (index_rows_last before r after k Hk Hne Hafter) as Hidx.
  split; [exact Hidx |].
  intros player_row out Hn Hout.
  destruct (process_one_matched _ _ _ _ _ Hn Hidx Hout)
    as (H1 & H2 & H3 & H4 & H5 & _).
  auto.
Qed.


(** ** Rows of [csv.DictReader] *)

Lemma fold_insert_pairs_is_Some (l : list (string * string)) (m : row) k :
  is_Some (fold_left (λ d kv, <[kv.1 := VStr kv.2]> d) l m !! k)
  ↔ k ∈ l.*1 ∨ is_Some (m !! k).
Proof.
  revert m. induction l as [| [k' v] l IH]; intros m; simpl.
  - split; [by right | intros [H | H]; [by apply elem_of_nil in H | done]].
  - rewrite IH, elem_of_cons. destruct (decide (k = k')) as [-> | Hne].
    + rewrite lookup_insert_eq. split; [auto | eauto].
    + rewrite lookup_insert_ne by done. tauto.
Qed.

Lemma fold_insert_none_is_Some (l : list string) (m : row) k :
  is_Some (fold_left (λ d key, <[key := VNone]> d) l m !! k)
  ↔ k ∈ l ∨ is_Some (m !! k).
Proof.
  revert m. induction l as [| k' l IH]; intros m; simpl.
  - split; [by right | intros [H | H]; [by apply elem_of_nil in H | done]].
  - rewrite IH, elem_of_cons. destruct (decide (k = k')) as [-> | Hne].
    + rewrite lookup_insert_eq. split; [auto | eauto].
    + rewrite lookup_insert_ne by done. tauto.
Qed.

Lemma fst_zip_take {A B} (l : list A) (k : list B) :
  (zip l k).*1 = take (length k) l.
Proof.
  revert k. induction l as [| x l IH]; intros [| y k]; simpl; try done.
  by rewrite IH.
Qed.

(** The keys of a row are the column names of the header. *)
Lemma dict_reader_row_is_Some h record k :
  is_Some (dict_reader_row h record !! k) ↔ k ∈ h.
Proof.
  unfold dict_reader_row.
  rewrite fold_insert_none_is_Some, fold_insert_pairs_is_Some, fst_zip_take.
  rewrite lookup_empty.
  assert (Hsplit : k ∈ h ↔ k ∈ take (length record) h ∨ k ∈ drop (length record) h).
  { rewrite <- elem_of_app. by rewrite take_drop. }
  rewrite Hsplit.
  split; [| tauto]. intros [H | [H | H]]; [tauto | tauto | by destruct H].
Qed.

Lemma dict_reader_elem f r :
  r ∈ dict_reader f ->
  ∃ h records record, f = h :: records ∧ record ∈ records
    ∧ r = dict_reader_row h record.
Proof.
  destruct f as [| h records]; simpl; [intros H; by apply elem_of_nil in H |].
  intros H. apply list_elem_of_fmap in H as (record & -> & Hin).
  apply list_elem_of_filter in Hin as [_ Hin].
  exists h, records, record. by repeat split.
Qed.

(** ** Which rows the index holds *)

Lemma index_key_cases r k :
  k ≠ EmptyString ->
  index_key r = VStr k ↔
    r !! "englishName" = Some (VStr k)
    ∨ (r !! "englishName" = None ∧ r !! "name" = Some (VStr k)).
Proof.
  intros Hne. unfold index_key, dict_get.
  destruct (r !! "englishName") as [v |]; [split; [intros ->; by left | intros [[= ->] | [? _]]; done] |].
  destruct (r !! "name") as [v |].
  - split; [intros ->; by right | intros [? | [_ [= ->]]]; done].
  - split; [intros [= <-]; done | intros [? | [_ ?]]; done].
Qed.

Lemma index_fold_is_Some rows info k :
  is_Some (fold_left index_step rows info !! k)
  ↔ is_Some (info !! k)
    ∨ (k ≠ EmptyString ∧ ∃ r, r ∈ rows ∧ index_key r = VStr k).
Proof.
  revert info. induction rows as [| r rows IH]; intros info; simpl.
  - split; [by left | intros [H | (_ & r & Hr & _)]; [done | by apply elem_of_nil in Hr]].
  - rewrite IH. split.
    + intros [H | (Hne & r' & Hr' & Hk)].
      * destruct (decide (index_key r = VStr k)) as [Hk | Hk].
        -- destruct (decide (k = EmptyString)) as [-> | Hne].
           ++ left. unfold index_step in H. by rewrite Hk in H.
           ++ right. split; [done |]. exists r. split; [by left | done].
        -- left. by rewrite index_step_other in H.
      * right. split; [done |]. exists r'. split; [by right | done].
    + intros [H | (Hne & r' & Hr' & Hk)].
      * left. destruct (decide (index_key r = VStr k)) as [Hk | Hk].
        -- destruct (decide (k = EmptyString)) as [-> | Hne].
           ++ unfold index_step. by rewrite Hk.
           ++ rewrite (index_step_key _ _ _ Hk Hne), lookup_insert_eq. eauto.
        -- by rewrite index_step_other.
      * apply elem_of_cons in Hr' as [-> | Hr'].
        -- left. rewrite (index_step_key _ _ _ Hk Hne), lookup_insert_eq. eauto.
        -- right. eauto.
Qed.

(** C2 (as amended).  The keys of the reconciliation index are exactly
    the non-empty [englishName] fields of the rows, together with the
    non-empty [name] fields of the rows that have no [englishName] entry;
    a row has no [englishName] entry only when the header of the file has
    no such column.  A row whose [englishName] is present but empty is
    indexed under no key. *)
Theorem C2_index_keys (f : csv_file) (k : string) :
  (is_Some (existing_index (Some (Readable f)) !! k) ↔
     k ≠ EmptyString ∧
     ∃ r, r ∈ dict_reader f ∧
       (r !! "englishName" = Some (VStr k)
        ∨ (r !! "englishName" = None ∧ r !! "name" = Some (VStr k)))) ∧
  (∀ h records r, f = h :: records -> r ∈ dict_reader f ->
     (r !! "englishName" = None ↔ "englishName" ∉ h)).
Proof.
  split.
  - simpl. unfold index_rows. rewrite index_fold_is_Some, lookup_empty.
    split.
    + intros [H | (Hne & r & Hr & Hk)]; [by destruct H |].
      split; [done |]. exists r. split; [done |]. by apply index_key_cases.
    + intros (Hne & r & Hr & Hk). right. split; [done |].
      exists r. split; [done |]. by apply index_key_cases.
  - intros h records r -> Hr.
    apply dict_reader_elem in Hr as (h' & records' & record & [= <- <-] & _ & ->).
    rewrite <- dict_reader_row_is_Some, eq_None_not_Some. done.
Qed.


(** ** [sort_players] *)

Lemma sort_keys_zip l keys :
  sort_keys l = Ok keys ->
  zip keys l = map (λ x, (rating_key x, x)) l
  ∧ Forall (λ x, int_field x "rating" = Ok (rating_key x)) l.
Proof.
  revert keys. induction l as [| x l IH]; intros keys H; simpl in H.
  - inv_res. subst keys. by split.
  - inv_res. subst keys. destruct (IH _ Ha0) as [Hz Hall].
    assert (Hk : rating_key x = a) by (unfold rating_key; by rewrite Ha).
    simpl. rewrite Hz, Hk. split; [done |].
    constructor; [by rewrite Hk | done].
Qed.

Lemma sort_players_inv l out :
  sort_players l = Ok out ->
  out = map snd (sort_desc (map (λ x, (rating_key x, x)) l))
  ∧ Forall (λ x, int_field x "rating" = Ok (rating_key x)) l.
Proof.
  unfold sort_players. intros H. inv_res. subst out.
  destruct (sort_keys_zip _ _ Ha) as [-> Hall]. by split.
Qed.

Lemma StronglySorted_lookup_lt {A} (R : A -> A -> Prop) (l : list A) i j a b :
  StronglySorted R l -> l !! i = Some a -> l !! j = Some b -> (i < j)%nat ->
  R a b.
Proof.
  intros Hs. revert i j. induction Hs as [| x l Hs IH Hall]; intros i j Hi Hj Hlt.
  - by rewrite lookup_nil in Hi.
  - destruct j as [| j]; [lia |]. simpl in Hj.
    destruct i as [| i]; simpl in Hi.
    + injection Hi as ->. rewrite Forall_forall in Hall. apply Hall.
      eapply list_elem_of_lookup_2, Hj.
    + apply (IH i j); [done | done | lia].
Qed.

Lemma filter_keyed (k : Z) (q : list (Z * row)) :
  Forall (λ y, int_field y.2 "rating" = Ok y.1) q ->
  filter (λ x, int_field x "rating" = Ok k) (map snd q)
  = map snd (filter (λ y, y.1 = k) q).
Proof.
  induction 1 as [| y q Hy Hq IH]; simpl; [done |].
  rewrite !filter_cons, IH. rewrite Hy.
  destruct (decide (Ok y.1 = Ok k)) as [[= E] | Hne];
    destruct (decide (y.1 = k)) as [E' | Hne']; try done; congruence.
Qed.

Lemma sort_players_spec l out :
  sort_players l = Ok out ->
  out ≡ₚ l ∧
  (∀ i a b, out !! i = Some a -> out !! S i = Some b ->
     ∃ ka kb, int_field a "rating" = Ok ka ∧ int_field b "rating" = Ok kb
              ∧ (kb ≤ ka)%Z) ∧
  (∀ k : Z, filter (λ x, int_field x "rating" = Ok k) out
            = filter (λ x, int_field x "rating" = Ok k) l).
Proof.
  intros H. destruct (sort_players_inv _ _ H) as [-> Hall].
  set (q := map (λ x, (rating_key x, x)) l).
  assert (Hq : Forall (λ y, int_field y.2 "rating" = Ok y.1) q).
  { unfold q. rewrite Forall_fmap. eapply Forall_impl; [exact Hall | done]. }
  assert (Hsq : Forall (λ y, int_field y.2 "rating" = Ok y.1) (sort_desc q)).
  { by rewrite sort_desc_perm. }
  assert (Hsnd : map snd q = l).
  { unfold q. rewrite map_map. simpl. apply map_id. }
  split; [| split].
  - rewrite sort_desc_perm. by rewrite Hsnd.
  - intros i a b Ha Hb.
    rewrite list_lookup_fmap in Ha, Hb.
    destruct (sort_desc q !! i) as [[ka a'] |] eqn:Ea; [| done].
    destruct (sort_desc q !! S i) as [[kb b'] |] eqn:Eb; [| done].
    simpl in Ha, Hb. injection Ha as ->. injection Hb as ->.
    exists ka, kb.
    rewrite Forall_forall in Hsq.
    split; [| split].
    + apply (Hsq (ka, a)). by eapply list_elem_of_lookup_2.
    + apply (Hsq (kb, b)). by eapply list_elem_of_lookup_2.
    + apply (StronglySorted_lookup_lt desc_ord (sort_desc q) i (S i) (ka, a) (kb, b));
        [apply sort_desc_sorted | done | done | lia].
  - intros k. rewrite filter_keyed by done.
    rewrite sort_desc_stable, <- filter_keyed by done. by rewrite Hsnd.
Qed.

(** ** [process_team] *)

(** A mapped team: the step reads the team's file, and either raises
    before any write or replaces the file by [team_output]. *)
Lemma team_output_inv players existing f :
  team_output players existing = Ok f ->
  ∃ processed sorted,
    process_players (existing_index existing) players = Ok processed ∧
    sort_players processed = Ok sorted ∧
    f = dict_writer sorted.
Proof.
  unfold team_output. intros H.
  destruct existing as [[old | old e] |]; [| discriminate |]; inv_res; eauto.
Qed.

Lemma process_team_mapped dir t short players st :
  team_code t = Some short ->
  ∃ evs,
    match team_output players (fs st !! team_file dir short) with
    | Ok f =>
        process_team dir t players st
        = (Ok tt, {| fs := <[team_file dir short := Readable f]> (fs st);
                     trace := (trace st ++ evs)%list |})
    | Raise e =>
        process_team dir t players st
        = (Raise e, {| fs := fs st; trace := (trace st ++ evs)%list |})
        ∧ ∀ p, EvWrite p ∉ evs
    end.
Proof.
  intros Ht. unfold process_team. rewrite Ht.
  unfold io_bind. rewrite read_existing_team_data_spec.
  pose proof (read_events_no_write (team_file dir short)
                (fs st !! team_file dir short)) as Hnw.
  set (evs := read_events _ _) in *. clearbody evs.
  unfold team_output.
  destruct (fs st !! team_file dir short) as [[old | old e] |] eqn:E.
  2: { exists evs. split; [done | exact Hnw]. }
  all: unfold print, emit, io_lift, write_file; simpl.
  all: destruct (process_players _ players) as [processed | e]; simpl;
         [destruct (sort_players processed) as [sorted | e]; simpl |].
  all: rewrite <- !app_assoc; eexists.
  all: try reflexivity.
  all: split; [reflexivity |].
  all: intros p Hp; apply elem_of_app in Hp as [Hp | Hp]; [by apply (Hnw p) |].
  all: not_in_list Hp.
Qed.

(** An unmapped team: one warning, nothing else. *)
Lemma process_team_unmapped dir t players st :
  team_code t = None ->
  process_team dir t players st
  = (Ok tt,
     {| fs := fs st;
        trace := (trace st ++
                  [EvPrint ("Warning: No mapping found for team '" ++ fmt t ++ "'")])%list |}).
Proof. intros Ht. unfold process_team. by rewrite Ht. Qed.

(** A step that raises has written nothing. *)
Lemma process_team_raise dir t players st e st' :
  process_team dir t players st = (Raise e, st') ->
  fs st' = fs st ∧ ∃ evs, trace st' = (trace st ++ evs)%list ∧ ∀ p, EvWrite p ∉ evs.
Proof.
  intros H. destruct (team_code t) as [short |] eqn:Ht.
  - destruct (process_team_mapped dir t short players st Ht) as (evs & Hspec).
    destruct (team_output _ _) as [f | e'].
    + rewrite Hspec in H. discriminate.
    + destruct Hspec as [Hspec Hnw]. rewrite Hspec in H.
      injection H as <- <-. simpl. eauto.
  - rewrite process_team_unmapped in H by done. discriminate.
Qed.

Lemma process_team_ok dir t short players st st' :
  team_code t = Some short ->
  process_team dir t players st = (Ok tt, st') ->
  ∃ f, team_output players (fs st !! team_file dir short) = Ok f
       ∧ fs st' = <[team_file dir short := Readable f]> (fs st).
Proof.
  intros Ht H.
  destruct (process_team_mapped dir t short players st Ht) as (evs & Hspec).
  destruct (team_output _ _) as [f | e].
  - rewrite Hspec in H. injection H as <-. eauto.
  - destruct Hspec as [Hspec _]. rewrite Hspec in H. discriminate.
Qed.

Lemma decimal_rating_key (x : row) (k : Z) :
  decimal_rating x = Some k -> int_field x "rating" = Ok k.
Proof.
  unfold decimal_rating. intros H.
  destruct (x !! "rating") as [[| s] |] eqn:E; try discriminate.
  by apply (int_field_decimal x "rating" s).
Qed.

Lemma filter_decimal_rating (k : Z) (l : list row) :
  filter (λ x, decimal_rating x = Some k)
    (filter (λ x, int_field x "rating" = Ok k) l)
  = filter (λ x, decimal_rating x = Some k) l.
Proof.
  induction l as [| x l IH]; [done |].
  rewrite !filter_cons.
  destruct (decide (decimal_rating x = Some k)) as [Hd | Hd].
  - rewrite decide_True by (by apply decimal_rating_key).
    rewrite filter_cons, decide_True by done. by rewrite IH.
  - destruct (decide (int_field x "rating" = Ok k)); [| done].
    rewrite filter_cons, decide_False by done. done.
Qed.

(** The order of a sorted list, in terms of the ratings that are plain
    decimal numerals. *)
Lemma sort_players_decimal l out :
  sort_players l = Ok out ->
  (∀ i a b ka kb, out !! i = Some a -> out !! S i = Some b ->
     decimal_rating a = Some ka -> decimal_rating b = Some kb -> (kb ≤ ka)%Z) ∧
  (∀ k : Z, filter (λ x, decimal_rating x = Some k) out
            = filter (λ x, decimal_rating x = Some k) l).
Proof.
  intros H. destruct (sort_players_spec _ _ H) as (_ & Hadj & Hstable). split.
  - intros i a b ka kb Ha Hb Hka Hkb.
    destruct (Hadj i a b Ha Hb) as (ka' & kb' & Ha' & Hb' & Hle).
    rewrite (decimal_rating_key a ka Hka) in Ha'.
    rewrite (decimal_rating_key b kb Hkb) in Hb'.
    injection Ha' as <-. by injection Hb' as <-.
  - intros k. by rewrite <- (filter_decimal_rating k out), Hstable,
      filter_decimal_rating.
Qed.

(** C4.  The rows that a team's step writes are the team's processed
    players in descending order of the integer rating: a permutation of
    them in which every row's rating, as [int] reads it, is at least the
    next row's, and in which players of equal rating keep their order.
    In particular, where two adjacent ratings are plain decimal numerals,
    the first is at least the second as a number, and the players whose
    rating is the numeral of one number keep their order. *)
Theorem C4_output_sorted_by_rating_stable
    (dir : string) (t : pyval) (short : string) (players : list row)
    (st st' : state) :
  team_code t = Some short ->
  process_team dir t players st = (Ok tt, st') ->
  ∃ processed out,
    process_players (existing_index (fs st !! team_file dir short)) players
      = Ok processed ∧
    sort_players processed = Ok out ∧
    fs st' !! team_file dir short
      = Some (Readable (fieldnames :: map dict_writer_row out)) ∧
    out ≡ₚ processed ∧
    (∀ i a b, out !! i = Some a -> out !! S i = Some b ->
       ∃ ka kb, int_field a "rating" = Ok ka ∧ int_field b "rating" = Ok kb
                ∧ (kb ≤ ka)%Z) ∧
    (∀ k : Z, filter (λ x, int_field x "rating" = Ok k) out
              = filter (λ x, int_field x "rating" = Ok k) processed) ∧
    (∀ i a b ka kb, out !! i = Some a -> out !! S i = Some b ->
       decimal_rating a = Some ka -> decimal_rating b = Some kb ->
       (kb ≤ ka)%Z) ∧
    (∀ k : Z, filter (λ x, decimal_rating x = Some k) out
              = filter (λ x, decimal_rating x = Some k) processed).
Proof.
  intros Ht Hrun.
  destruct (process_team_ok _ _ _ _ _ _ Ht Hrun) as (f & Hf & Hfs).
  destruct (team_output_inv _ _ _ Hf) as (processed & out & Hp & Hs & ->).
  exists processed, out.
  split; [done |]. split; [done |].
  split; [rewrite Hfs; apply lookup_insert_eq |].
  destruct (sort_players_spec _ _ Hs) as (Hperm & Hadj & Hstable).
  destruct (sort_players_decimal _ _ Hs) as (Hdadj & Hdstable).
  by repeat split.
Qed.


(** ** [main] without its input file *)

Lemma main_absent st :
  fs st !! input_file = None ->
  main st
  = (Ok tt,
     {| fs := fs st;
        trace := (trace st ++
          [ EvExists input_file;
            EvPrint "Error: Input file 'public/data/rosters/temp.csv' not found!" ])%list |}).
Proof.
  intros Hnone. unfold main, io_bind, path_exists. rewrite Hnone.
  rewrite bool_decide_eq_false_2 by (intros [? ?]; discriminate).
  simpl. unfold print, emit. simpl. by rewrite <- app_assoc.
Qed.

(** C7.  When the input file does not exist, [main] checks the path,
    prints one message and returns normally; no file is read or written
    and the file system is unchanged. *)
Theorem C7_missing_input_file (st : state) :
  fs st !! input_file = None ->
  main st
  = (Ok tt,
     {| fs := fs st;
        trace := (trace st ++
          [ EvExists input_file;
            EvPrint "Error: Input file 'public/data/rosters/temp.csv' not found!" ])%list |}).
Proof. apply main_absent. Qed.


(** ** The loop over the teams *)

Lemma process_teams_app dir l1 l2 st :
  process_teams dir (l1 ++ l2) st
  = match process_teams dir l1 st with
    | (Ok _, st') => process_teams dir l2 st'
    | (Raise e, st') => (Raise e, st')
    end.
Proof.
  revert st. induction l1 as [| [t ps] l1 IH]; intros st; simpl; [done |].
  unfold io_bind. destruct (process_team dir t ps st) as [[[] | e] st']; [apply IH | done].
Qed.

(** The result of a step and the files it leaves depend on the files it
    finds only, not on the events so far. *)
Lemma process_team_fs_only dir t players st1 st2 :
  fs st1 = fs st2 ->
  (process_team dir t players st1).1 = (process_team dir t players st2).1 ∧
  fs (process_team dir t players st1).2 = fs (process_team dir t players st2).2.
Proof.
  intros Hfs. destruct (team_code t) as [short |] eqn:Ht.
  - destruct (process_team_mapped dir t short players st1 Ht) as (evs1 & H1).
    destruct (process_team_mapped dir t short players st2 Ht) as (evs2 & H2).
    rewrite <- Hfs in H2.
    destruct (team_output _ _) as [f | e].
    + rewrite H1, H2. by rewrite Hfs.
    + destruct H1 as [-> _], H2 as [-> _]. done.
  - rewrite !process_team_unmapped by done. done.
Qed.

Lemma process_teams_fs_only dir teams st1 st2 :
  fs st1 = fs st2 ->
  (process_teams dir teams st1).1 = (process_teams dir teams st2).1 ∧
  fs (process_teams dir teams st1).2 = fs (process_teams dir teams st2).2.
Proof.
  revert st1 st2. induction teams as [| [t ps] teams IH]; intros st1 st2 Hfs; simpl.
  - done.
  - unfold io_bind.
    destruct (process_team_fs_only dir t ps st1 st2 Hfs) as [Hr Hf].
    destruct (process_team dir t ps st1) as [[[] | e1] st1'],
             (process_team dir t ps st2) as [[[] | e2] st2']; simpl in *;
      try discriminate.
    + by apply IH.
    + by injection Hr as ->.
Qed.

(** C6.  The step of a team that the mapping does not know prints the
    warning, changes no file and returns normally.  In a run, the teams
    after it are processed from the files that the teams before it left,
    and the result of the run and the files it leaves are those of the
    run without the team: no row of the team reaches any file. *)
Theorem C6_unmapped_team_skipped
    (dir : string) (t : pyval) (players : list row) :
  team_code t = None ->
  (∀ st, process_team dir t players st
         = (Ok tt, {| fs := fs st; trace := (trace st ++ [warning t])%list |})) ∧
  (∀ before after st st1,
     process_teams dir before st = (Ok tt, st1) ->
     process_teams dir (before ++ (t, players) :: after) st
     = process_teams dir after
         {| fs := fs st1; trace := (trace st1 ++ [warning t])%list |}) ∧
  (∀ before after st,
     (process_teams dir (before ++ (t, players) :: after) st).1
       = (process_teams dir (before ++ after) st).1 ∧
     fs (process_teams dir (before ++ (t, players) :: after) st).2
       = fs (process_teams dir (before ++ after) st).2).
Proof.
  intros Ht.
  assert (Hstep : ∀ st, process_team dir t players st
    = (Ok tt, {| fs := fs st; trace := (trace st ++ [warning t])%list |})).
  { intros st. by apply process_team_unmapped. }
  split; [exact Hstep |]. split.
  - intros before after st st1 Hbefore.
    rewrite process_teams_app, Hbefore. simpl. unfold io_bind.
    by rewrite Hstep.
  - intros before after st. rewrite !process_teams_app.
    destruct (process_teams dir before st) as [[[] | e] st1]; [| done].
    simpl. unfold io_bind. rewrite Hstep.
    by apply process_teams_fs_only.
Qed.


(** ** Grouping the rows by team *)

Lemma group_add_keys team r groups :
  (group_add team r groups).*1
  = if decide (team ∈ groups.*1) then groups.*1 else (groups.*1 ++ [team])%list.
Proof.
  induction groups as [| [t rs] groups IH]; [done |].
  cbn [group_add].
  destruct (decide (t = team)) as [-> | Hne]; rewrite !fmap_cons; cbn [fst].
  - rewrite decide_True by (by left). done.
  - rewrite IH. destruct (decide (team ∈ groups.*1)) as [Hin | Hnin].
    + rewrite decide_True by (by right). done.
    + rewrite decide_False; [done |].
      intros Hin. apply elem_of_cons in Hin as [-> | Hin]; done.
Qed.

Lemma group_add_nodup team r groups :
  NoDup groups.*1 -> NoDup (group_add team r groups).*1.
Proof.
  intros Hnd. rewrite group_add_keys. case_decide; [done |].
  apply NoDup_app. split; [done |]. split; [| apply NoDup_singleton].
  intros x Hx Hx'. apply list_elem_of_singleton in Hx' as ->. done.
Qed.

Lemma group_add_elem team r groups t ps :
  (t, ps) ∈ group_add team r groups ->
  (∃ ps0, (t, ps0) ∈ groups ∧ (ps = ps0 ∨ (t = team ∧ ps = (ps0 ++ [r])%list)))
  ∨ (t = team ∧ ps = [r]).
Proof.
  induction groups as [| [t' rs] groups IH]; simpl.
  - intros H. apply list_elem_of_singleton in H as [= -> ->]. by right.
  - destruct (decide (t' = team)) as [-> | Hne].
    + intros H. apply elem_of_cons in H as [[= -> ->] | H].
      * left. exists rs. split; [by left | by right].
      * left. exists ps. split; [by right | by left].
    + intros H. apply elem_of_cons in H as [[= -> ->] | H].
      * left. exists rs. split; [by left | by left].
      * destruct (IH H) as [(ps0 & Hin & Hps) | Hnew]; [| by right].
        left. exists ps0. split; [by right | done].
Qed.

Lemma group_add_grows team r groups t ps x :
  (t, ps) ∈ groups -> x ∈ ps ->
  ∃ ps', (t, ps') ∈ group_add team r groups ∧ x ∈ ps'.
Proof.
  induction groups as [| [t' rs] groups IH]; simpl; intros Hin Hx.
  - by apply elem_of_nil in Hin.
  - destruct (decide (t' = team)) as [-> | Hne].
    + apply elem_of_cons in Hin as [[= -> ->] | Hin].
      * exists (rs ++ [r])%list. split; [by left |]. apply elem_of_app. by left.
      * exists ps. split; [by right | done].
    + apply elem_of_cons in Hin as [[= -> ->] | Hin].
      * exists rs. split; [by left | done].
      * destruct (IH Hin Hx) as (ps' & Hin' & Hx'). exists ps'. split; [by right | done].
Qed.

Lemma group_add_new team r groups :
  ∃ ps, (team, ps) ∈ group_add team r groups ∧ r ∈ ps.
Proof.
  induction groups as [| [t' rs] groups IH]; simpl.
  - exists [r]. split; by left.
  - destruct (decide (t' = team)) as [-> | Hne].
    + exists (rs ++ [r])%list. split; [by left |]. apply elem_of_app. right. by left.
    + destruct IH as (ps & Hin & Hr). exists ps. split; [by right | done].
Qed.

Lemma group_rows_grouped rows acc seen groups :
  group_rows acc rows = Ok groups ->
  grouped acc seen -> grouped groups (seen ++ rows).
Proof.
  revert acc seen. induction rows as [| r rows IH]; intros acc seen H Hacc; simpl in H.
  - inv_res. subst groups. by rewrite app_nil_r.
  - inv_res. rename a into team.
    replace (seen ++ r :: rows)%list with ((seen ++ [r]) ++ rows)%list
      by (by rewrite <- app_assoc).
    apply (IH _ _ H). destruct Hacc as [Hnd Hrows]. split.
    + by apply group_add_nodup.
    + intros t ps x Hin Hx.
      unfold getitem in Ha. destruct (r !! "team") as [v |] eqn:E; [| done].
      injection Ha as ->.
      destruct (group_add_elem _ _ _ _ _ Hin) as [(ps0 & Hin0 & Hps) | [-> ->]].
      * destruct Hps as [-> | [-> ->]].
        -- destruct (Hrows _ _ _ Hin0 Hx) as [Hs Ht]. split; [| done].
           apply elem_of_app. by left.
        -- apply elem_of_app in Hx as [Hx | Hx].
           ++ destruct (Hrows _ _ _ Hin0 Hx) as [Hs Ht]. split; [| done].
              apply elem_of_app. by left.
           ++ apply list_elem_of_singleton in Hx as ->. split; [| done].
              apply elem_of_app. right. by left.
      * apply list_elem_of_singleton in Hx as ->. split; [| done].
        apply elem_of_app. right. by left.
Qed.

Lemma group_rows_keeps rows acc groups t ps x :
  group_rows acc rows = Ok groups ->
  (t, ps) ∈ acc -> x ∈ ps -> ∃ ps', (t, ps') ∈ groups ∧ x ∈ ps'.
Proof.
  revert acc ps. induction rows as [| r rows IH]; intros acc ps H Hin Hx; simpl in H.
  - inv_res. subst groups. eauto.
  - inv_res. destruct (group_add_grows a r acc t ps x Hin Hx) as (ps' & Hin' & Hx').
    by apply (IH _ _ H Hin').
Qed.

Lemma group_rows_covers rows acc groups r t :
  group_rows acc rows = Ok groups ->
  r ∈ rows -> r !! "team" = Some t -> ∃ ps, (t, ps) ∈ groups ∧ r ∈ ps.
Proof.
  revert acc. induction rows as [| r' rows IH]; intros acc H Hin Ht; simpl in H.
  - by apply elem_of_nil in Hin.
  - inv_res. apply elem_of_cons in Hin as [<- | Hin].
    + unfold getitem in Ha. rewrite Ht in Ha. injection Ha as <-.
      destruct (group_add_new t r acc) as (ps & Hin & Hr).
      by apply (group_rows_keeps _ _ _ _ _ _ H Hin).
    + by apply (IH _ H).
Qed.

Lemma group_rows_ok rows acc :
  (∀ r, r ∈ rows -> is_Some (r !! "team")) ->
  ∃ groups, group_rows acc rows = Ok groups.
Proof.
  revert acc. induction rows as [| r rows IH]; intros acc Hall; simpl; [eauto |].
  destruct (Hall r) as [t Ht]; [by left |].
  unfold getitem. rewrite Ht. simpl. apply IH. intros r' Hr'. apply Hall. by right.
Qed.

(** ** Malformed numeric fields *)

Lemma process_one_rating info r out :
  process_one info r = Ok out ->
  is_Some (r !! "overallAttribute") ∧ out !! "rating" = r !! "overallAttribute".
Proof.
  intros Hout. destruct (process_one_inv _ _ _ Hout) as (fresh & Hf & Hr).
  destruct (process_player_col r fresh "rating" "overallAttribute" Hf)
    as [Hs Hrating]; [by_compute |].
  split; [done |]. rewrite <- Hrating.
  unfold reconcile in Hr. inv_res.
  destruct a as [| n]; [by injection Hr as <- |].
  destruct (info !! n) as [e |]; injection Hr as <-; [| done].
  by simplify_map_eq.
Qed.

Lemma process_players_elem info players processed r :
  process_players info players = Ok processed -> r ∈ players ->
  ∃ out, out ∈ processed ∧ process_one info r = Ok out.
Proof.
  revert processed. induction players as [| r' players IH]; intros processed H Hin;
    simpl in H.
  - by apply elem_of_nil in Hin.
  - inv_res. subst processed. apply elem_of_cons in Hin as [-> | Hin].
    + exists a. split; [by left | done].
    + destruct (IH _ Ha0 Hin) as (out & Hout & Hone).
      exists out. split; [by right | done].
Qed.

Lemma bad_numeric_elim r :
  bad_numeric r = true ->
  ∃ k, k ∈ required_numeric ∧ ∀ z, int_field r k ≠ Ok z.
Proof.
  unfold bad_numeric. intros H. apply existsb_exists in H as (k & Hin & Hk).
  exists k. split; [by apply list_elem_of_In |].
  intros z Hz. by rewrite Hz in Hk.
Qed.

(** A team with a malformed row has no output. *)
Lemma team_output_bad players existing r :
  r ∈ players -> bad_numeric r = true ->
  ∃ e, team_output players existing = Raise e.
Proof.
  intros Hin Hbad.
  destruct (team_output players existing) as [f | e] eqn:Hout; [| eauto].
  exfalso.
  destruct (team_output_inv _ _ _ Hout) as (processed & out & Hp & Hs & _).
  destruct (process_players_elem _ _ _ _ Hp Hin) as (x & Hx & Hone).
  destruct (process_one_rating _ _ _ Hone) as [[v Hv] Hrating].
  rewrite Hv in Hrating.
  destruct (process_one_inv _ _ _ Hone) as (fresh & Hf & _).
  destruct (process_player_inv _ _ Hf)
    as (a & b & c & ast & s1 & s2 & s3 & s4 & s5 & s6 & ath & H).
  destruct H as (H1 & H2 & H3 & _ & H4 & H5 & H6 & H7 & H8 & H9 & _ & _).
  destruct (sort_players_inv _ _ Hs) as [_ Hall].
  rewrite Forall_forall in Hall.
  assert (Hkey : int_field r "overallAttribute" = Ok (rating_key x)).
  { rewrite <- (Hall x) by done.
    unfold int_field, getitem. by rewrite Hrating, Hv. }
  destruct (bad_numeric_elim r Hbad) as (k & Hk & Hnone).
  unfold required_numeric in Hk.
  repeat (apply elem_of_cons in Hk as [-> | Hk]; [by eapply Hnone |]).
  by apply elem_of_nil in Hk.
Qed.

Lemma process_team_bad dir t short players r st :
  team_code t = Some short -> r ∈ players -> bad_numeric r = true ->
  ∃ e st', process_team dir t players st = (Raise e, st').
Proof.
  intros Ht Hin Hbad.
  destruct (process_team_mapped dir t short players st Ht) as (evs & Hspec).
  destruct (team_output_bad players (fs st !! team_file dir short) r Hin Hbad)
    as (e & He).
  rewrite He in Hspec. destruct Hspec as [Hspec _]. eauto.
Qed.

Lemma process_teams_raise dir teams t players :
  (t, players) ∈ teams ->
  (∀ st, ∃ e st', process_team dir t players st = (Raise e, st')) ->
  ∀ st, ∃ e st', process_teams dir teams st = (Raise e, st').
Proof.
  intros Hin Hbad. induction teams as [| [t' ps] teams IH]; intros st.
  - by apply elem_of_nil in Hin.
  - simpl. unfold io_bind.
    destruct (process_team dir t' ps st) as [[[] | e] st1] eqn:E; [| eauto].
    apply elem_of_cons in Hin as [[= <- <-] | Hin].
    + destruct (Hbad st) as (e & st' & He). rewrite He in E. discriminate.
    + by apply IH.
Qed.

(** [main] with something at the input path: the run is the grouping
    loop over what the reader yields, then the loop over the teams. *)
Lemma main_entry st f :
  fs st !! input_file = Some f ->
  ∃ st0, fs st0 = fs st ∧
    main st
    = match for_rows f (group_rows []) with
      | Ok groups =>
          match process_teams output_dir groups st0 with
          | (Ok _, st1) =>
              (Ok tt,
               {| fs := fs st1;
                  trace := (trace st1 ++
                    [ EvPrint (str_repeat "-" 60);
                      EvPrint "Roster processing completed!" ])%list |})
          | (Raise e, st1) => (Raise e, st1)
          end
      | Raise e => (Raise e, st0)
      end.
Proof.
  intros Hf. unfold main, io_bind, path_exists. rewrite Hf.
  rewrite bool_decide_eq_true_2 by eauto. simpl.
  unfold process_roster, io_bind, open_file. simpl. rewrite Hf.
  unfold io_lift. eexists {| fs := fs st; trace := _ |}. split; [reflexivity |].
  destruct (for_rows f (group_rows [])) as [groups | e]; [| reflexivity].
  destruct (process_teams output_dir groups _) as [[[] | e] st1]; [| reflexivity].
  unfold print, emit. simpl. by rewrite <- app_assoc.
Qed.

Lemma main_present st f :
  fs st !! input_file = Some (Readable f) ->
  ∃ st0, fs st0 = fs st ∧
    main st
    = match group_rows [] (dict_reader f) with
      | Ok groups =>
          match process_teams output_dir groups st0 with
          | (Ok _, st1) =>
              (Ok tt,
               {| fs := fs st1;
                  trace := (trace st1 ++
                    [ EvPrint (str_repeat "-" 60);
                      EvPrint "Roster processing completed!" ])%list |})
          | (Raise e, st1) => (Raise e, st1)
          end
      | Raise e => (Raise e, st0)
      end.
Proof. intros Hf. apply (main_entry st (Readable f) Hf). Qed.

(** An input file that cannot be read in full is fatal, and no file is
    changed. *)
Lemma main_unreadable st records e :
  fs st !! input_file = Some (Unreadable records e) ->
  ∃ e' st', main st = (Raise e', st') ∧ fs st' = fs st.
Proof.
  intros Hf. destruct (main_entry st _ Hf) as (st0 & Hfs & ->).
  simpl. destruct (group_rows [] (dict_reader records)); simpl; eauto.
Qed.

(** C8.  If a row of a mapped team has a required numeric field that is
    absent or does not parse as an integer, the run ends with an
    exception; the step of such a team raises from any state; and a step
    that raises has changed no file and performed no write. *)
Theorem C8_malformed_numeric_field_is_fatal
    (st : state) (f : csv_file) (r : row) (t : pyval) (short : string) :
  fs st !! input_file = Some (Readable f) ->
  r ∈ dict_reader f ->
  r !! "team" = Some t ->
  team_code t = Some short ->
  bad_numeric r = true ->
  (∃ e st', main st = (Raise e, st')) ∧
  (∀ dir players st0, r ∈ players ->
     ∃ e st1, process_team dir t players st0 = (Raise e, st1)) ∧
  (∀ dir t' players st0 e st1,
     process_team dir t' players st0 = (Raise e, st1) ->
     fs st1 = fs st0 ∧
     ∃ evs, trace st1 = (trace st0 ++ evs)%list ∧ ∀ p, EvWrite p ∉ evs).
Proof.
  intros Hf Hr Ht Hcode Hbad.
  assert (Hstep : ∀ dir players st0, r ∈ players ->
     ∃ e st1, process_team dir t players st0 = (Raise e, st1)).
  { intros dir players st0 Hin. by eapply process_team_bad. }
  split; [| split; [exact Hstep | intros; by eapply process_team_raise]].
  destruct (main_present st f Hf) as (st0 & _ & ->).
  destruct (group_rows [] (dict_reader f)) as [groups | e] eqn:Hg; [| eauto].
  destruct (group_rows_covers _ _ _ _ _ Hg Hr Ht) as (players & Hin & Hrp).
  destruct (process_teams_raise output_dir groups t players Hin
              (λ st0, Hstep output_dir players st0 Hrp) st0) as (e & st' & ->).
  eauto.
Qed.


(** ** Reading back what was written *)

Lemma fold_insert_pairs_map (g : string -> string) (h : list string) (m : row) k :
  fold_left (λ d kv, <[kv.1 := VStr kv.2]> d) (zip h (map g h)) m !! k
  = if decide (k ∈ h) then Some (VStr (g k)) else m !! k.
Proof.
  revert m. induction h as [| k' h IH]; intros m; simpl.
  - done.
  - rewrite IH. destruct (decide (k ∈ h)) as [Hin | Hnin].
    + rewrite decide_True by (by right). done.
    + destruct (decide (k = k')) as [-> | Hne].
      * rewrite decide_True by (by left). apply lookup_insert_eq.
      * rewrite decide_False by (intros [? | ?]%elem_of_cons; done).
        by rewrite lookup_insert_ne.
Qed.

Lemma dict_reader_row_map (g : string -> string) (h : list string) k :
  dict_reader_row h (map g h) !! k
  = if decide (k ∈ h) then Some (VStr (g k)) else None.
Proof.
  unfold dict_reader_row. rewrite length_map, drop_all.
  cbn [fold_left]. by rewrite fold_insert_pairs_map, lookup_empty.
Qed.

Lemma reread_lookup d k :
  reread d !! k = if decide (k ∈ fieldnames) then Some (VStr (text d k)) else None.
Proof. apply (dict_reader_row_map (λ key, text d key)). Qed.

Lemma index_key_reread d : index_key (reread d) = VStr (text d "englishName").
Proof.
  unfold index_key, dict_get. rewrite !reread_lookup.
  rewrite decide_True by by_compute. done.
Qed.

Lemma protected_of_reread d : protected_of (reread d) = ptext d.
Proof.
  unfold protected_of, ptext, dict_get. rewrite !reread_lookup.
  rewrite !decide_True by by_compute. done.
Qed.

Lemma dict_reader_writer players :
  dict_reader (dict_writer players) = map reread players.
Proof.
  unfold dict_reader, dict_writer.
  induction players as [| d players IH]; simpl; [done |].
  by rewrite IH.
Qed.

(** ** The texts of a reconciled player *)

Lemma text_with_protected e fresh k :
  text (with_protected e fresh) k
  = if decide (k = "rotationType") then field_text (p_rotationType e)
    else if decide (k = "playerType") then field_text (p_playerType e)
    else if decide (k = "position") then field_text (p_position e)
    else if decide (k = "englishName") then field_text (p_englishName e)
    else if decide (k = "name") then field_text (p_name e)
    else text fresh k.
Proof.
  unfold text, with_protected, dict_get.
  repeat (case_decide; [subst k; by simplify_map_eq |]).
  by rewrite !lookup_insert_ne by done.
Qed.

Lemma ptext_with_protected e fresh : ptext (with_protected e fresh) = normalize e.
Proof. unfold ptext, normalize. by rewrite !text_with_protected. Qed.

Lemma with_protected_other e fresh k :
  k ∉ protected_fields -> with_protected e fresh !! k = fresh !! k.
Proof.
  intros Hk. destruct (protected_fields_other k Hk) as (? & ? & ? & ? & ?).
  unfold with_protected. by rewrite !lookup_insert_ne by done.
Qed.

(** The two ways a player leaves the loop body. *)
Lemma process_one_cases info r out :
  process_one info r = Ok out ->
  ∃ fresh nm, process_player r = Ok fresh ∧ r !! "name" = Some nm ∧
    ((∃ n e, nm = VStr n ∧ info !! n = Some e ∧ out = with_protected e fresh)
     ∨ ((∀ n, nm = VStr n -> info !! n = None) ∧ out = fresh)).
Proof.
  intros Hout. destruct (process_one_inv _ _ _ Hout) as (fresh & Hf & Hr).
  exists fresh. unfold reconcile in Hr. inv_res.
  unfold getitem in Ha. destruct (r !! "name") as [nm |] eqn:Hn; [| done].
  injection Ha as <-. exists nm. split; [done |]. split; [done |].
  destruct nm as [| n].
  - right. injection Hr as <-. split; [intros; discriminate | done].
  - destruct (info !! n) as [e |] eqn:He; injection Hr as <-.
    + left. by exists n, e.
    + right. split; [by intros n' [= <-] | done].
Qed.

Lemma process_one_other info r out fresh k :
  process_one info r = Ok out -> process_player r = Ok fresh ->
  k ∉ protected_fields -> out !! k = fresh !! k.
Proof.
  intros Hout Hf Hk.
  destruct (process_one_cases _ _ _ Hout) as (fresh' & nm & Hf' & _ & Hcase).
  rewrite Hf in Hf'. injection Hf' as <-.
  destruct Hcase as [(n & e & _ & _ & ->) | [_ ->]]; [| done].
  by apply with_protected_other.
Qed.

Lemma text_dict_get (d : row) k v : d !! k = Some v -> text d k = field_text v.
Proof. intros H. unfold text, dict_get. by rewrite H. Qed.

Lemma index_no_empty_key existing :
  existing_index existing !! EmptyString = None.
Proof.
  destruct existing as [[f | f e] |]; [| apply lookup_empty ..]. simpl.
  apply eq_None_not_Some. unfold index_rows. rewrite index_fold_is_Some.
  rewrite lookup_empty. intros [H | [H _]]; [by destruct H | done].
Qed.

Lemma index_step_keyed info r :
  keyed info -> is_Some (r !! "englishName") -> keyed (index_step info r).
Proof.
  intros Hk [v Hv] k e. unfold index_step, index_key, dict_get. rewrite Hv.
  destruct v as [| s]; simpl; [apply Hk |].
  destruct s as [| c s]; [apply Hk |].
  destruct (decide (k = String c s)) as [-> | Hne].
  - rewrite lookup_insert_eq. intros [= <-]. simpl. unfold dict_get. by rewrite Hv.
  - rewrite lookup_insert_ne by done. apply Hk.
Qed.

Lemma index_fold_keyed rows info :
  keyed info -> (∀ r, r ∈ rows -> is_Some (r !! "englishName")) ->
  keyed (fold_left index_step rows info).
Proof.
  revert info. induction rows as [| r rows IH]; intros info Hk Hall; simpl; [done |].
  apply IH; [| intros r' Hr'; apply Hall; by right].
  apply index_step_keyed; [done | apply Hall; by left].
Qed.

Lemma keyed_empty : keyed ∅.
Proof. intros k e H. by rewrite lookup_empty in H. Qed.

Lemma existing_index_keyed existing :
  english_column existing = true -> keyed (existing_index existing).
Proof.
  intros Hcol. destruct existing as [[f | f e] |]; [| apply keyed_empty ..].
  simpl. apply index_fold_keyed; [apply keyed_empty |].
  intros r Hr. destruct (dict_reader_elem _ _ Hr) as (h & records & record & -> & _ & ->).
  simpl in Hcol. apply bool_decide_eq_true in Hcol.
  by apply dict_reader_row_is_Some.
Qed.

(** The written [englishName] of a player is the display name of its
    source row. *)
Lemma out_english_text info r out nm :
  keyed info -> process_one info r = Ok out -> r !! "name" = Some nm ->
  text out "englishName" = field_text nm.
Proof.
  intros Hk Hout Hn.
  destruct (process_one_cases _ _ _ Hout) as (fresh & nm' & Hf & Hn' & Hcase).
  rewrite Hn in Hn'. injection Hn' as <-.
  destruct Hcase as [(n & e & -> & He & ->) | [_ ->]].
  - rewrite text_with_protected. simpl. by rewrite (Hk _ _ He).
  - apply text_dict_get.
    destruct (process_player_col r fresh "englishName" "name" Hf) as [_ ->];
      [by_compute | done].
Qed.

Lemma ptext_fresh r fresh n :
  process_player r = Ok fresh -> r !! "name" = Some (VStr n) ->
  ptext fresh
  = {| p_name := VStr n; p_englishName := VStr n;
       p_position := VStr (position_text r);
       p_playerType := VStr EmptyString; p_rotationType := VStr EmptyString |}.
Proof.
  intros Hf Hn. unfold ptext.
  destruct (process_player_col r fresh "name" "name" Hf) as [_ H1]; [by_compute |].
  destruct (process_player_col r fresh "englishName" "name" Hf) as [_ H2]; [by_compute |].
  destruct (process_player_col r fresh "position" "position" Hf) as [[v Hv] H3];
    [by_compute |].
  rewrite Hn in H1, H2. rewrite Hv in H3.
  rewrite (text_dict_get _ _ _ H1), (text_dict_get _ _ _ H2), (text_dict_get _ _ _ H3).
  rewrite (text_dict_get fresh "playerType" (VStr EmptyString))
    by (apply (process_player_const r); [done | by_compute]).
  rewrite (text_dict_get fresh "rotationType" (VStr EmptyString))
    by (apply (process_player_const r); [done | by_compute]).
  unfold position_text, dict_get. by rewrite Hv.
Qed.

(** Two players of a team with the same non-empty display name are
    written with the same protected fields. *)
Lemma same_name_same_ptext info players r1 r2 n o1 o2 :
  positions_agree players -> r1 ∈ players -> r2 ∈ players ->
  r1 !! "name" = Some (VStr n) -> r2 !! "name" = Some (VStr n) ->
  n ≠ EmptyString ->
  process_one info r1 = Ok o1 -> process_one info r2 = Ok o2 ->
  ptext o1 = ptext o2.
Proof.
  intros Hagree Hin1 Hin2 Hn1 Hn2 Hne Ho1 Ho2.
  destruct (process_one_cases _ _ _ Ho1) as (f1 & nm1 & Hf1 & Hn1' & Hc1).
  destruct (process_one_cases _ _ _ Ho2) as (f2 & nm2 & Hf2 & Hn2' & Hc2).
  rewrite Hn1 in Hn1'. injection Hn1' as <-.
  rewrite Hn2 in Hn2'. injection Hn2' as <-.
  destruct Hc1 as [(n1 & e1 & [= <-] & He1 & ->) | [Hnone1 ->]];
    destruct Hc2 as [(n2 & e2 & [= <-] & He2 & ->) | [Hnone2 ->]].
  - rewrite !ptext_with_protected. congruence.
  - rewrite (Hnone2 n) in He1; done.
  - rewrite (Hnone1 n) in He2; done.
  - rewrite (ptext_fresh _ _ _ Hf1 Hn1), (ptext_fresh _ _ _ Hf2 Hn2).
    by rewrite (Hagree r1 r2 n).
Qed.

(** ** The second run of a team *)

Lemma index_fold_agree rows info k v :
  k ≠ EmptyString ->
  (∀ x, x ∈ rows -> index_key x = VStr k -> protected_of x = v) ->
  info !! k = Some v ∨ (∃ x, x ∈ rows ∧ index_key x = VStr k) ->
  fold_left index_step rows info !! k = Some v.
Proof.
  intros Hne. revert info. induction rows as [| r rows IH]; intros info Hall Hex; simpl.
  - destruct Hex as [H | (x & Hx & _)]; [done | by apply elem_of_nil in Hx].
  - apply IH; [intros x Hx; apply Hall; by right |].
    destruct (decide (index_key r = VStr k)) as [Hk | Hk].
    + left. rewrite (index_step_key _ _ _ Hk Hne), lookup_insert_eq.
      f_equal. apply Hall; [by left | done].
    + rewrite index_step_other by done.
      destruct Hex as [H | (x & Hx & Hxk)]; [by left |].
      right. exists x. split; [| done].
      apply elem_of_cons in Hx as [-> | Hx]; done.
Qed.

Lemma process_players_elem_rev info players processed out :
  process_players info players = Ok processed -> out ∈ processed ->
  ∃ r, r ∈ players ∧ process_one info r = Ok out.
Proof.
  revert processed. induction players as [| r players IH]; intros processed H Hin;
    simpl in H.
  - inv_res. subst processed. by apply elem_of_nil in Hin.
  - inv_res. subst processed. apply elem_of_cons in Hin as [-> | Hin].
    + exists r. split; [by left | done].
    + destruct (IH _ Ha0 Hin) as (r' & Hr' & Hone).
      exists r'. split; [by right | done].
Qed.

Lemma process_one_name info r out :
  process_one info r = Ok out -> is_Some (r !! "name").
Proof.
  intros Hout. destruct (process_one_cases _ _ _ Hout) as (_ & nm & _ & Hn & _). eauto.
Qed.

Lemma field_text_nonempty nm n :
  field_text nm = n -> n ≠ EmptyString -> nm = VStr n.
Proof. destruct nm as [| s]; simpl; [by intros <- | by intros ->]. Qed.

(** The index read from the file of the first run maps the display name
    of every player to the protected fields the player was written with. *)
Lemma second_index_lookup info0 players processed sorted r n out :
  keyed info0 -> positions_agree players ->
  process_players info0 players = Ok processed ->
  sorted ≡ₚ processed ->
  r ∈ players -> r !! "name" = Some (VStr n) -> n ≠ EmptyString ->
  process_one info0 r = Ok out ->
  existing_index (Some (Readable (dict_writer sorted))) !! n = Some (ptext out).
Proof.
  intros Hkeyed Hagree Hproc Hperm Hr Hn Hne Hout.
  unfold existing_index. rewrite dict_reader_writer.
  apply index_fold_agree; [done | |].
  - intros x Hx Hkey. apply list_elem_of_fmap in Hx as (d & -> & Hd).
    rewrite index_key_reread in Hkey. injection Hkey as Hkey.
    rewrite protected_of_reread.
    rewrite Hperm in Hd.
    destruct (process_players_elem_rev _ _ _ _ Hproc Hd) as (rd & Hrd & Hone).
    destruct (process_one_name _ _ _ Hone) as [nm Hnm].
    rewrite (out_english_text _ _ _ _ Hkeyed Hone Hnm) in Hkey.
    rewrite (field_text_nonempty _ _ Hkey Hne) in Hnm.
    by apply (same_name_same_ptext info0 players rd r n).
  - right. destruct (process_players_elem _ _ _ _ Hproc Hr) as (out' & Hin & Hone).
    rewrite Hout in Hone. injection Hone as <-.
    exists (reread out). split.
    + apply list_elem_of_fmap. exists out. split; [done |]. by rewrite Hperm.
    + rewrite index_key_reread. f_equal.
      by rewrite (out_english_text _ _ _ _ Hkeyed Hout Hn).
Qed.

Lemma dict_writer_row_ext a b :
  (∀ k, k ∈ fieldnames -> text a k = text b k) ->
  dict_writer_row a = dict_writer_row b.
Proof.
  intros H. unfold dict_writer_row. apply map_ext_in.
  intros k Hk. apply H. by apply list_elem_of_In.
Qed.

Lemma text_with_protected_ptext out fresh k :
  (∀ k', k' ∉ protected_fields -> out !! k' = fresh !! k') ->
  text (with_protected (ptext out) fresh) k = text out k.
Proof.
  intros Hother. rewrite text_with_protected.
  repeat (case_decide; [by subst k |]).
  unfold text, dict_get. rewrite Hother; [done |].
  unfold protected_fields. intros Hin.
  repeat (apply elem_of_cons in Hin as [-> | Hin]; [done |]).
  by apply elem_of_nil in Hin.
Qed.

(** A player of the second run is written as in the first. *)
Lemma second_run_player info0 players processed sorted r out1 :
  keyed info0 -> info0 !! EmptyString = None -> positions_agree players ->
  process_players info0 players = Ok processed ->
  sorted ≡ₚ processed ->
  r ∈ players ->
  process_one info0 r = Ok out1 ->
  ∃ out2,
    process_one (existing_index (Some (Readable (dict_writer sorted)))) r = Ok out2
    ∧ written_alike out1 out2.
Proof.
  intros Hkeyed Hempty Hagree Hproc Hperm Hr Hout1.
  destruct (process_one_cases _ _ _ Hout1) as (fresh & nm & Hf & Hn & Hcase).
  set (info1 := existing_index (Some (Readable (dict_writer sorted)))).
  assert (Hsame : ∀ out2, process_one info1 r = Ok out2 ->
            dict_writer_row out1 = dict_writer_row out2 -> written_alike out1 out2).
  { intros out2 Hout2 Hw. split; [done |].
    destruct (process_one_rating _ _ _ Hout1) as [_ ->].
    by destruct (process_one_rating _ _ _ Hout2) as [_ ->]. }
  assert (Hfresh : nm = VNone ∨ nm = VStr EmptyString ->
            out1 = fresh ∧ process_one info1 r = Ok fresh).
  { intros Hnm. split.
    - destruct Hcase as [(n & e & -> & He & ->) | [_ ->]]; [| done].
      destruct Hnm as [? | [= ->]]; [done |].
      by rewrite Hempty in He.
    - unfold process_one. rewrite Hf. simpl.
      apply (reconcile_unmatched _ _ _ nm Hn).
      intros n ->. destruct Hnm as [? | [= ->]]; [done |].
      apply index_no_empty_key. }
  destruct nm as [| n]; [| destruct (decide (n = EmptyString)) as [-> | Hne]].
  - destruct Hfresh as [-> Hrun]; [by left |]. exists fresh. split; [done | by apply Hsame].
  - destruct Hfresh as [-> Hrun]; [by right |]. exists fresh. split; [done | by apply Hsame].
  - pose proof (second_index_lookup _ _ _ _ _ _ _ Hkeyed Hagree Hproc Hperm
                  Hr Hn Hne Hout1) as Hidx.
    assert (Hrun : process_one info1 r = Ok (with_protected (ptext out1) fresh)).
    { unfold process_one. rewrite Hf. simpl. by apply (reconcile_matched _ _ _ n). }
    eexists. split; [exact Hrun |]. apply Hsame; [exact Hrun |].
    apply dict_writer_row_ext. intros k _. symmetry.
    apply text_with_protected_ptext. intros k' Hk'.
    by apply (process_one_other info0 r).
Qed.

Lemma second_run_players info0 info1 (all players : list row) processed :
  (∀ r out1, r ∈ all -> process_one info0 r = Ok out1 ->
     ∃ out2, process_one info1 r = Ok out2 ∧ written_alike out1 out2) ->
  (∀ r, r ∈ players -> r ∈ all) ->
  process_players info0 players = Ok processed ->
  ∃ processed2, process_players info1 players = Ok processed2
    ∧ Forall2 written_alike processed processed2.
Proof.
  intros Hone. revert processed.
  induction players as [| r players IH]; intros processed Hsub H; simpl in H.
  - inv_res. subst processed. exists []. by split.
  - inv_res. subst processed.
    destruct (Hone r a) as (out2 & Hout2 & Halike); [apply Hsub; by left | done |].
    destruct (IH a0) as (rest2 & Hrest2 & Hall); [intros r' Hr'; apply Hsub; by right | done |].
    exists (out2 :: rest2). simpl. rewrite Hout2, Hrest2. simpl.
    split; [done | by constructor].
Qed.

Lemma sort_keys_alike l1 l2 :
  Forall2 written_alike l1 l2 -> sort_keys l2 = sort_keys l1.
Proof.
  induction 1 as [| a b l1 l2 [_ Hr] _ IH]; simpl; [done |].
  unfold int_field, getitem. by rewrite Hr, IH.
Qed.

Lemma zip_map_r {A B C} (f : B -> C) (k : list A) (l : list B) :
  zip k (map f l) = map (prod_map id f) (zip k l).
Proof.
  revert l. induction k as [| x k IH]; intros [| y l]; simpl; try done.
  by rewrite IH.
Qed.

Lemma map_snd_prod_map {A B C} (f : B -> C) (q : list (A * B)) :
  map snd (map (prod_map id f) q) = map f (map snd q).
Proof. induction q as [| [x y] q IH]; simpl; [done | by rewrite IH]. Qed.

(** Lists that are written alike, element by element, are written alike
    once sorted. *)
Lemma sort_players_alike l1 l2 s1 :
  Forall2 written_alike l1 l2 -> sort_players l1 = Ok s1 ->
  ∃ s2, sort_players l2 = Ok s2
        ∧ map dict_writer_row s2 = map dict_writer_row s1.
Proof.
  intros Hall Hs1. unfold sort_players in *.
  rewrite (sort_keys_alike _ _ Hall).
  destruct (sort_keys l1) as [keys |]; simpl in *; [| done].
  injection Hs1 as <-. eexists. split; [reflexivity |].
  rewrite <- !map_snd_prod_map, <- !sort_desc_map, <- !zip_map_r.
  do 3 f_equal. symmetry.
  induction Hall as [| a b l1 l2 [Hw _] _ IH]; simpl; [done | by rewrite Hw, IH].
Qed.

(** A team's file is a fixed point of the team's step. *)
Lemma team_output_idem players existing f1 :
  english_column existing = true ->
  positions_agree players ->
  team_output players existing = Ok f1 ->
  team_output players (Some (Readable f1)) = Ok f1.
Proof.
  intros Hcol Hagree H1.
  destruct (team_output_inv _ _ _ H1) as (processed & sorted & Ha & Ha0 & ->).
  destruct (sort_players_spec _ _ Ha0) as (Hperm & _ & _).
  pose proof (existing_index_keyed _ Hcol) as Hkeyed.
  destruct (second_run_players (existing_index existing)
              (existing_index (Some (Readable (dict_writer sorted)))) players players processed)
    as (processed2 & Hp2 & Hall); [| done | done |].
  { intros r out1 Hr Hout1.
    apply (second_run_player (existing_index existing) players processed sorted);
      try done.
    apply index_no_empty_key. }
  destruct (sort_players_alike _ _ _ Hall Ha0) as (sorted2 & Hs2 & Hw).
  unfold team_output. rewrite Hp2. simpl. rewrite Hs2. simpl.
  unfold dict_writer. by rewrite Hw.
Qed.

(** ** The paths of the team files *)

Lemma team_code_elem t short :
  team_code t = Some short -> ∃ tn, t = VStr tn ∧ (tn, short) ∈ team_list.
Proof.
  destruct t as [| tn]; simpl; [done |]. intros H. exists tn. split; [done |].
  by apply elem_of_list_to_map_2.
Qed.

Lemma nodup_fmap_inj {A B} (f : A -> B) (l : list A) x y :
  NoDup (f <$> l) -> x ∈ l -> y ∈ l -> f x = f y -> x = y.
Proof.
  induction l as [| z l IH]; intros Hnd Hx Hy Hf; [by apply elem_of_nil in Hx |].
  rewrite fmap_cons in Hnd. apply NoDup_cons in Hnd as [Hz Hnd].
  apply elem_of_cons in Hx as [-> | Hx]; apply elem_of_cons in Hy as [-> | Hy].
  - done.
  - exfalso. apply Hz. rewrite Hf. by apply list_elem_of_fmap_2.
  - exfalso. apply Hz. rewrite <- Hf. by apply list_elem_of_fmap_2.
  - by apply IH.
Qed.

Lemma team_files_nodup : NoDup ((λ ts, team_file output_dir ts.2) <$> team_list).
Proof. by_compute. Qed.

(** Distinct teams have distinct files. *)
Lemma team_file_inj t1 t2 s1 s2 :
  team_code t1 = Some s1 -> team_code t2 = Some s2 ->
  team_file output_dir s1 = team_file output_dir s2 -> t1 = t2.
Proof.
  intros (n1 & -> & H1)%team_code_elem (n2 & -> & H2)%team_code_elem Hf.
  pose proof (nodup_fmap_inj (λ ts, team_file output_dir ts.2) team_list
                (n1, s1) (n2, s2) team_files_nodup H1 H2 Hf) as E.
  by injection E as -> _.
Qed.

(** No team file is the input file. *)
Lemma team_file_not_input t short :
  team_code t = Some short -> team_file output_dir short ≠ input_file.
Proof.
  intros (n & -> & Hin)%team_code_elem.
  assert (Hall : Forall (λ ts, team_file output_dir ts.2 ≠ input_file) team_list)
    by by_compute.
  rewrite Forall_forall in Hall. by apply (Hall (n, short)).
Qed.

(** A run of the loop changes only the files of its teams. *)
Lemma process_teams_frame dir teams st st' path :
  process_teams dir teams st = (Ok tt, st') ->
  (∀ t ps short, (t, ps) ∈ teams -> team_code t = Some short ->
     team_file dir short ≠ path) ->
  fs st' !! path = fs st !! path.
Proof.
  revert st. induction teams as [| [t ps] teams IH]; intros st H Hpath; simpl in H.
  - by injection H as <-.
  - unfold io_bind in H.
    destruct (process_team dir t ps st) as [[[] | e] st1] eqn:E; [| done].
    rewrite (IH st1 H) by (intros t' ps' s' Hin; apply (Hpath t' ps'); by right).
    destruct (team_code t) as [short |] eqn:Ht.
    + destruct (process_team_ok _ _ _ _ _ _ Ht E) as (f & _ & ->).
      apply lookup_insert_ne. apply (Hpath t ps); [by left | done].
    + rewrite process_team_unmapped in E by done. by injection E as <-.
Qed.

(** ** Running the loop again *)

Lemma process_teams_idem teams :
  NoDup teams.*1 ->
  ∀ st0 st1 stA,
    process_teams output_dir teams st0 = (Ok tt, st1) ->
    (∀ t ps short, (t, ps) ∈ teams -> team_code t = Some short ->
       fs stA !! team_file output_dir short = fs st1 !! team_file output_dir short) ->
    (∀ t ps short, (t, ps) ∈ teams -> team_code t = Some short ->
       english_column (fs st0 !! team_file output_dir short) = true
       ∧ positions_agree ps) ->
    ∃ stB, process_teams output_dir teams stA = (Ok tt, stB) ∧ fs stB = fs stA.
Proof.
  induction teams as [| [t ps] teams IH]; intros Hnd st0 st1 stA Hrun Hsame Hhyp.
  - exists stA. by split.
  - simpl in Hnd. apply NoDup_cons in Hnd as [Ht_new Hnd].
    simpl in Hrun. unfold io_bind in Hrun.
    destruct (process_team output_dir t ps st0) as [[[] | e] st0'] eqn:E0; [| done].
    simpl. unfold io_bind.
    destruct (team_code t) as [short |] eqn:Ht.
    + destruct (process_team_ok _ _ _ _ _ _ Ht E0) as (f1 & Hf1 & Hfs0).
      destruct (Hhyp t ps short) as [Hcol Hagree]; [by left | done |].
      assert (Hst1 : fs st1 !! team_file output_dir short = Some (Readable f1)).
      { rewrite (process_teams_frame _ _ _ _ _ Hrun).
        - rewrite Hfs0. apply lookup_insert_eq.
        - intros t' ps' s' Hin Ht' Hpath. apply Ht_new.
          rewrite (team_file_inj t t' short s' Ht Ht' (eq_sym Hpath)).
          apply list_elem_of_fmap. by exists (t', ps'). }
      assert (HA : fs stA !! team_file output_dir short = Some (Readable f1)).
      { rewrite (Hsame t ps short); [done | by left | done]. }
      destruct (process_team_mapped output_dir t short ps stA Ht) as (evs & Hspec).
      rewrite HA, (team_output_idem _ _ _ Hcol Hagree Hf1) in Hspec.
      rewrite Hspec. rewrite (insert_id _ _ _ HA).
      destruct (IH Hnd st0' st1 {| fs := fs stA; trace := (trace stA ++ evs)%list |} Hrun)
        as (stB & HB & HfsB).
      * intros t' ps' s' Hin Ht'. simpl. apply (Hsame t' ps'); [by right | done].
      * intros t' ps' s' Hin Ht'.
        destruct (Hhyp t' ps' s') as [Hcol' Hagree']; [by right | done |].
        split; [| done]. rewrite Hfs0, lookup_insert_ne; [done |].
        intros Hpath. apply Ht_new.
        rewrite (team_file_inj t t' short s' Ht Ht' Hpath).
        apply list_elem_of_fmap. by exists (t', ps').
      * exists stB. by split.
    + rewrite process_team_unmapped in E0 by done. injection E0 as <-.
      rewrite process_team_unmapped by done.
      destruct (IH Hnd _ st1
                  {| fs := fs stA; trace := (trace stA ++ [warning t])%list |} Hrun)
        as (stB & HB & HfsB).
      * intros t' ps' s' Hin Ht'. simpl. apply (Hsame t' ps'); [by right | done].
      * intros t' ps' s' Hin Ht'. simpl. apply (Hhyp t' ps'); [by right | done].
      * exists stB. by split.
Qed.

(** ** Running [main] again *)

Lemma existing_files_keyed_spec files t short :
  existing_files_keyed files = true -> team_code t = Some short ->
  english_column (files !! team_file output_dir short) = true.
Proof.
  unfold existing_files_keyed. rewrite forallb_forall.
  intros Hall (n & -> & Hin)%team_code_elem.
  apply (Hall (n, short)). by apply list_elem_of_In.
Qed.

Lemma consistent_positions_spec rows groups t ps :
  consistent_positions rows = true -> grouped groups rows ->
  (t, ps) ∈ groups -> positions_agree ps.
Proof.
  unfold consistent_positions. rewrite forallb_forall.
  intros Hall [_ Hrows] Hin r1 r2 n Hr1 Hr2 Hn1 Hn2 Hne.
  destruct (Hrows _ _ _ Hin Hr1) as [Hin1 Ht1].
  destruct (Hrows _ _ _ Hin Hr2) as [Hin2 Ht2].
  specialize (Hall r1 (proj1 (list_elem_of_In _ _) Hin1)).
  rewrite forallb_forall in Hall.
  specialize (Hall r2 (proj1 (list_elem_of_In _ _) Hin2)).
  unfold same_player, dict_get in Hall.
  rewrite Ht1, Ht2, Hn1, Hn2, !bool_decide_eq_true_2 in Hall by done.
  destruct n; [done |]. simpl in Hall.
  by apply bool_decide_eq_true in Hall.
Qed.

(** C5 (as amended).  If every team file present before the first run has
    an [englishName] column, and rows of one team with the same non-empty
    display name have the same position, then after a first run that
    completes, a second run on the same input and the files of the first
    run completes and leaves every file as it was. *)
Theorem C5_second_run_changes_nothing (st0 st1 : state) :
  existing_files_keyed (fs st0) = true ->
  roster_consistent (fs st0) = true ->
  main st0 = (Ok tt, st1) ->
  ∃ st2, main st1 = (Ok tt, st2) ∧ fs st2 = fs st1.
Proof.
  intros Hkeyed Hcons Hrun1.
  destruct (fs st0 !! input_file) as [[f | f e] |] eqn:Hin.
  2: { destruct (main_unreadable st0 f e Hin) as (e' & st' & Hraise & _).
       rewrite Hraise in Hrun1. discriminate. }
  - destruct (main_present st0 f Hin) as (stA & HfsA & Hmain).
    rewrite Hmain in Hrun1.
    destruct (group_rows [] (dict_reader f)) as [groups | e] eqn:Hg; [| done].
    destruct (process_teams output_dir groups stA) as [[[] | e] stB] eqn:Hloop;
      [| done].
    injection Hrun1 as <-. simpl.
    assert (Hgrouped : grouped groups (dict_reader f)).
    { apply (group_rows_grouped (dict_reader f) [] [] groups Hg).
      split; [constructor |]. intros t ps r H. by apply elem_of_nil in H. }
    assert (Hin1 : fs stB !! input_file = Some (Readable f)).
    { rewrite (process_teams_frame _ _ _ _ _ Hloop), HfsA; [done |].
      intros t ps short _ Ht. by apply (team_file_not_input t). }
    match goal with
    | |- ∃ st2, main ?s = _ ∧ _ =>
        destruct (main_present s f Hin1) as (stC & HfsC & Hmain2)
    end.
    rewrite Hmain2, Hg.
    destruct (process_teams_idem groups (proj1 Hgrouped) stA stB stC Hloop)
      as (stD & HloopD & HfsD).
    + intros t ps short _ _. by rewrite HfsC.
    + intros t ps short Hinp Ht. split.
      * rewrite HfsA. by apply (existing_files_keyed_spec _ t).
      * unfold roster_consistent in Hcons. rewrite Hin in Hcons.
        by apply (consistent_positions_spec (dict_reader f) groups t).
    + rewrite HloopD. eexists. split; [reflexivity |]. simpl.
      by rewrite HfsD, HfsC.
  - rewrite (main_absent st0 Hin) in Hrun1. injection Hrun1 as <-.
    rewrite main_absent by done. eexists. split; [reflexivity | done].
Qed.


(** * Further properties *)

(** ** Grouping: order and content *)

Lemma group_lookup_add team r groups t :
  group_lookup (group_add team r groups) t
  = if decide (t = team)
    then Some (default [] (group_lookup groups team) ++ [r])%list
    else group_lookup groups t.
Proof.
  induction groups as [| [t' rs] groups IH]; cbn [group_add group_lookup].
  - destruct (decide (team = t)) as [-> | Hne].
    + by rewrite decide_True.
    + by rewrite decide_False.
  - destruct (decide (t' = team)) as [-> | Hne]; cbn [group_lookup].
    + destruct (decide (team = t)) as [<- | Hne].
      * rewrite !decide_True by done. done.
      * by rewrite decide_False.
    + rewrite IH. destruct (decide (t' = t)) as [-> | Hne'].
      * by rewrite decide_False.
      * by destruct (decide (t = team)) as [-> | Hne''].
Qed.

Lemma group_lookup_elem groups t ps :
  NoDup groups.*1 -> (t, ps) ∈ groups ↔ group_lookup groups t = Some ps.
Proof.
  induction groups as [| [t' rs] groups IH]; intros Hnd; cbn [group_lookup].
  - split; [intros H; by apply elem_of_nil in H | done].
  - rewrite fmap_cons in Hnd. apply NoDup_cons in Hnd as [Hnew Hnd].
    rewrite elem_of_cons, (IH Hnd).
    destruct (decide (t' = t)) as [-> | Hne].
    + split.
      * intros [[= ->] | H]; [done |]. exfalso. apply Hnew.
        apply (IH Hnd) in H. apply list_elem_of_fmap. by exists (t, ps).
      * intros [= ->]. by left.
    + split; [intros [[= -> ->] | H]; done | by right].
Qed.

Lemma rows_of_snoc t rows r :
  rows_of t (rows ++ [r])
  = (rows_of t rows ++ if decide (r !! "team" = Some t) then [r] else [])%list.
Proof.
  unfold rows_of. rewrite filter_app. f_equal.
Qed.

(** The invariant of the grouping loop: the group of a team holds the
    rows of the team seen so far, and a team is a key once it has a row. *)
Lemma group_rows_lookup rows acc seen groups :
  group_rows acc rows = Ok groups ->
  (∀ t, default [] (group_lookup acc t) = rows_of t seen
        ∧ (is_Some (group_lookup acc t) ↔ rows_of t seen ≠ [])) ->
  ∀ t, default [] (group_lookup groups t) = rows_of t (seen ++ rows)
       ∧ (is_Some (group_lookup groups t) ↔ rows_of t (seen ++ rows) ≠ []).
Proof.
  revert acc seen. induction rows as [| r rows IH]; intros acc seen H Hinv; simpl in H.
  - inv_res. subst groups. by rewrite app_nil_r.
  - inv_res. rename a into team.
    unfold getitem in Ha. destruct (r !! "team") as [v |] eqn:E; [| done].
    injection Ha as ->.
    replace (seen ++ r :: rows)%list with ((seen ++ [r]) ++ rows)%list
      by (by rewrite <- app_assoc).
    apply (IH _ _ H). intros t. rewrite group_lookup_add, rows_of_snoc, E.
    destruct (Hinv t) as [Hd Hs].
    destruct (decide (t = team)) as [-> | Hne].
    + rewrite decide_True by done. simpl. rewrite Hd. split; [done |].
      split; [intros _ | eauto]. by destruct (rows_of team seen).
    + rewrite decide_False by congruence. by rewrite app_nil_r.
Qed.

Lemma group_rows_keys rows acc groups :
  group_rows acc rows = Ok groups ->
  groups.*1
  = fold_left (λ seen t, if decide (t ∈ seen) then seen else (seen ++ [t])%list)
      (omap (λ r, r !! "team") rows) acc.*1.
Proof.
  revert acc. induction rows as [| r rows IH]; intros acc H; simpl in H.
  - inv_res. by subst groups.
  - inv_res. unfold getitem in Ha. destruct (r !! "team") as [v |] eqn:E; [| done].
    injection Ha as ->. rewrite (IH _ H), group_add_keys.
    cbn [omap list_omap]. rewrite E. done.
Qed.

(** X1.  The grouping loop of [process_roster]: the teams are the team names
    of the rows in the order of their first occurrence, without
    repetition, and the group of a team holds exactly the rows of the
    team, in their order in the file. *)
Theorem group_rows_spec (rows : list row) (groups : list (pyval * list row)) :
  group_rows [] rows = Ok groups ->
  groups.*1 = first_seen (omap (λ r, r !! "team") rows) ∧
  NoDup groups.*1 ∧
  ∀ t ps, (t, ps) ∈ groups ↔ ps = rows_of t rows ∧ ps ≠ [].
Proof.
  intros H.
  assert (Hnd : NoDup groups.*1).
  { apply (group_rows_grouped rows [] [] groups H).
    split; [constructor |]. intros t ps r Hin. by apply elem_of_nil in Hin. }
  split; [exact (group_rows_keys rows [] groups H) |]. split; [exact Hnd |].
  intros t ps. rewrite (group_lookup_elem groups t ps Hnd).
  destruct (group_rows_lookup rows [] [] groups H) with (t := t) as [Hd Hs].
  { intros t'. simpl. split; [done |]. split; [intros [? ?]; done | done]. }
  simpl in Hd, Hs. split.
  - intros Hl. rewrite Hl in Hd, Hs. simpl in Hd. subst ps.
    split; [done |]. apply Hs. eauto.
  - intros [-> Hne]. apply Hs in Hne as [ps Hps]. rewrite Hps in Hd.
    simpl in Hd. by rewrite Hps, Hd.
Qed.

Lemma ok_get {A} (d : A) (r : result A) :
  is_ok r = true -> r = Ok (match r with Ok a => a | Raise _ => d end).
Proof. by destruct r. Qed.

(** ** A roster without team column, an empty roster *)

Lemma group_rows_raise rows acc r :
  r ∈ rows -> r !! "team" = None ->
  group_rows acc rows = Raise (KeyError "team").
Proof.
  revert acc. induction rows as [| r' rows IH]; intros acc Hin Hnone.
  - by apply elem_of_nil in Hin.
  - simpl. unfold getitem. destruct (r' !! "team") as [t |] eqn:E; simpl.
    + apply elem_of_cons in Hin as [-> | Hin]; [congruence |]. by apply IH.
    + done.
Qed.

(** X2.  When the header of the roster has no [team] column and the roster has
    a record, the run ends with [KeyError: 'team'] and no file is changed. *)
Theorem main_missing_team_column
    (st : state) (h : list string) (records : list (list string))
    (record : list string) :
  fs st !! input_file = Some (Readable (h :: records)) ->
  "team" ∉ h ->
  record ∈ records -> record ≠ [] ->
  ∃ st', main st = (Raise (KeyError "team"), st') ∧ fs st' = fs st.
Proof.
  intros Hf Hteam Hin Hne.
  destruct (main_present st _ Hf) as (st0 & Hfs & ->).
  rewrite (group_rows_raise _ [] (dict_reader_row h record)).
  - by exists st0.
  - simpl. apply list_elem_of_fmap. exists record. split; [done |].
    by apply list_elem_of_filter.
  - apply eq_None_not_Some. by rewrite dict_reader_row_is_Some.
Qed.

(** X3.  When the roster has no record (an empty file, or a header only), the
    run completes and no file is changed. *)
Theorem main_empty_roster (st : state) (f : csv_file) :
  fs st !! input_file = Some (Readable f) ->
  dict_reader f = [] ->
  ∃ st', main st = (Ok tt, st') ∧ fs st' = fs st.
Proof.
  intros Hf Hempty.
  destruct (main_present st _ Hf) as (st0 & Hfs & ->).
  rewrite Hempty. simpl. eexists. split; [reflexivity | done].
Qed.

(** ** The files a run can change *)

Lemma process_team_frame dir t players st path :
  (∀ short, team_code t = Some short -> team_file dir short ≠ path) ->
  fs (process_team dir t players st).2 !! path = fs st !! path.
Proof.
  intros Hpath. destruct (team_code t) as [short |] eqn:Ht.
  - destruct (process_team_mapped dir t short players st Ht) as (evs & Hspec).
    destruct (team_output _ _) as [f | e].
    + rewrite Hspec. simpl. apply lookup_insert_ne. by apply Hpath.
    + destruct Hspec as [-> _]. done.
  - by rewrite process_team_unmapped.
Qed.

Lemma process_team_keeps dir t players st path :
  is_Some (fs st !! path) ->
  is_Some (fs (process_team dir t players st).2 !! path).
Proof.
  intros Hs. destruct (team_code t) as [short |] eqn:Ht.
  - destruct (process_team_mapped dir t short players st Ht) as (evs & Hspec).
    destruct (team_output _ _) as [f | e].
    + rewrite Hspec. simpl. rewrite lookup_insert. case_decide; eauto.
    + destruct Hspec as [-> _]. done.
  - by rewrite process_team_unmapped.
Qed.

Lemma process_teams_frame_any dir teams st path :
  (∀ t ps short, (t, ps) ∈ teams -> team_code t = Some short ->
     team_file dir short ≠ path) ->
  fs (process_teams dir teams st).2 !! path = fs st !! path.
Proof.
  revert st. induction teams as [| [t ps] teams IH]; intros st Hpath; [done |].
  simpl. unfold io_bind.
  pose proof (process_team_frame dir t ps st path) as Hstep.
  destruct (process_team dir t ps st) as [[[] | e] st1]; simpl in *.
  - rewrite IH by (intros t' ps' s' Hin; apply (Hpath t' ps'); by right).
    apply Hstep. intros short. apply (Hpath t ps). by left.
  - apply Hstep. intros short. apply (Hpath t ps). by left.
Qed.

Lemma process_teams_keeps dir teams st path :
  is_Some (fs st !! path) ->
  is_Some (fs (process_teams dir teams st).2 !! path).
Proof.
  revert st. induction teams as [| [t ps] teams IH]; intros st Hs; [done |].
  simpl. unfold io_bind.
  pose proof (process_team_keeps dir t ps st path Hs) as Hstep.
  destruct (process_team dir t ps st) as [[[] | e] st1]; simpl in *; [by apply IH | done].
Qed.

(** X4.  Whatever the outcome of a run, normal or exceptional: a path that is
    not the team file of one of the thirty teams holds what it held
    before (in particular the input file), and no file is removed. *)
Theorem main_changes_team_files_only (st : state) (path : string) :
  ((∀ ts, ts ∈ team_list -> team_file output_dir ts.2 ≠ path) ->
   fs (main st).2 !! path = fs st !! path) ∧
  fs (main st).2 !! input_file = fs st !! input_file ∧
  (is_Some (fs st !! path) -> is_Some (fs (main st).2 !! path)).
Proof.
  assert (Hframe : ∀ p,
    (∀ ts, ts ∈ team_list -> team_file output_dir ts.2 ≠ p) ->
    fs (main st).2 !! p = fs st !! p).
  { intros p Hp. destruct (fs st !! input_file) as [f |] eqn:Hf.
    - destruct (main_entry st f Hf) as (st0 & Hfs & ->).
      destruct (for_rows f (group_rows [])) as [groups | e]; [| simpl; by rewrite Hfs].
      pose proof (process_teams_frame_any output_dir groups st0 p) as Hloop.
      destruct (process_teams output_dir groups st0) as [[[] | e] st1]; simpl in *;
        rewrite <- Hfs; apply Hloop; intros t ps short _ Ht;
        destruct (team_code_elem _ _ Ht) as (n & _ & Hin); apply (Hp (n, short) Hin).
    - by rewrite main_absent. }
  split; [apply Hframe |]. split.
  - apply Hframe. intros [n short] Hin. apply (team_file_not_input (VStr n)).
    simpl. apply elem_of_list_to_map_1; [| done].
    apply (bool_decide_unpack _). vm_compute. exact I.
  - intros Hs. destruct (fs st !! input_file) as [f |] eqn:Hf.
    + destruct (main_entry st f Hf) as (st0 & Hfs & ->).
      destruct (for_rows f (group_rows [])) as [groups | e]; [| simpl; by rewrite Hfs].
      rewrite <- Hfs in Hs.
      pose proof (process_teams_keeps output_dir groups st0 path Hs) as Hloop.
      by destruct (process_teams output_dir groups st0) as [[[] | e] st1].
    + by rewrite main_absent.
Qed.

(** ** The files of a completed run *)

Lemma process_teams_final teams :
  NoDup teams.*1 ->
  ∀ st st' t ps short,
    process_teams output_dir teams st = (Ok tt, st') ->
    (t, ps) ∈ teams -> team_code t = Some short ->
    ∃ out, team_output ps (fs st !! team_file output_dir short) = Ok out
           ∧ fs st' !! team_file output_dir short = Some (Readable out).
Proof.
  induction teams as [| [t0 ps0] teams IH]; intros Hnd st st' t ps short Hrun Hin Ht.
  - by apply elem_of_nil in Hin.
  - rewrite fmap_cons in Hnd. apply NoDup_cons in Hnd as [Hnew Hnd].
    simpl in Hrun. unfold io_bind in Hrun.
    destruct (process_team output_dir t0 ps0 st) as [[[] | e] st1] eqn:E; [| done].
    apply elem_of_cons in Hin as [[= -> ->] | Hin].
    + destruct (process_team_ok _ _ _ _ _ _ Ht E) as (out & Hout & Hfs).
      exists out. split; [done |].
      rewrite (process_teams_frame _ _ _ _ _ Hrun).
      * rewrite Hfs. apply lookup_insert_eq.
      * intros t' ps' s' Hin' Ht' Hpath. apply Hnew.
        rewrite (team_file_inj t0 t' short s' Ht Ht' (eq_sym Hpath)).
        apply list_elem_of_fmap. by exists (t', ps').
    + destruct (IH Hnd st1 st' t ps short Hrun Hin Ht) as (out & Hout & Hfs).
      exists out. split; [| done].
      rewrite <- Hout. f_equal.
      replace st1 with (process_team output_dir t0 ps0 st).2 by (by rewrite E).
      symmetry. apply process_team_frame.
      intros s0 Ht0 Hpath. apply Hnew.
      rewrite (team_file_inj t0 t s0 short Ht0 Ht Hpath).
      apply list_elem_of_fmap. by exists (t, ps).
Qed.

(** X5.  After a run that completes, the file of every mapped team of the
    roster is the output computed from the rows of that team and from the
    file the team had before the run: no team's output depends on another
    team's rows or file. *)
Theorem main_team_files (st st' : state) (f : csv_file) :
  fs st !! input_file = Some (Readable f) ->
  main st = (Ok tt, st') ->
  ∃ groups, group_rows [] (dict_reader f) = Ok groups ∧
    ∀ t ps short, (t, ps) ∈ groups -> team_code t = Some short ->
      ∃ out,
        team_output ps (fs st !! team_file output_dir short) = Ok out
        ∧ fs st' !! team_file output_dir short = Some (Readable out).
Proof.
  intros Hf Hrun.
  destruct (main_present st f Hf) as (st0 & Hfs & Hmain). rewrite Hmain in Hrun.
  destruct (group_rows [] (dict_reader f)) as [groups | e] eqn:Hg; [| done].
  destruct (process_teams output_dir groups st0) as [[[] | e] st1] eqn:Hloop; [| done].
  injection Hrun as <-. exists groups. split; [done |].
  intros t ps short Hin Ht. simpl. rewrite <- Hfs.
  apply (process_teams_final groups) with (t := t); try done.
  apply (group_rows_grouped (dict_reader f) [] [] groups Hg).
  split; [constructor |]. intros t' ps' r H. by apply elem_of_nil in H.
Qed.

(** ** The shape of a team file *)

(** X6.  The keys of a processed player, reconciled or not, are the field
    names of the writer: the writer finds every column and no extra key. *)
Theorem processed_player_keys
    (info : gmap string protected) (r out : row) (k : string) :
  process_one info r = Ok out ->
  is_Some (out !! k) ↔ k ∈ fieldnames.
Proof.
  intros Hout.
  destruct (process_one_cases _ _ _ Hout) as (fresh & nm & Hf & _ & Hcase).
  destruct Hcase as [(n & e & _ & _ & ->) | [_ ->]];
    [| by apply (process_player_dom r)].
  destruct (decide (k ∈ protected_fields)) as [Hin | Hnin].
  - split; intros _.
    + unfold protected_fields in Hin.
      repeat (apply elem_of_cons in Hin as [-> | Hin]; [by_compute |]).
      by apply elem_of_nil in Hin.
    + unfold protected_fields in Hin. unfold with_protected.
      repeat (apply elem_of_cons in Hin as [-> | Hin]; [by simplify_map_eq |]).
      by apply elem_of_nil in Hin.
  - rewrite with_protected_other by done. by apply (process_player_dom r).
Qed.

Lemma process_players_length info players processed :
  process_players info players = Ok processed ->
  length processed = length players.
Proof.
  revert processed. induction players as [| r players IH]; intros processed H;
    simpl in H; inv_res; subst processed; [done |].
  simpl. f_equal. by apply IH.
Qed.

Lemma process_players_each info players processed :
  process_players info players = Ok processed ->
  Forall2 (λ r out, process_one info r = Ok out) players processed.
Proof.
  revert processed. induction players as [| r players IH]; intros processed H;
    simpl in H; inv_res; subst processed; constructor; [done | by apply IH].
Qed.

(** X7.  The file written for a team is the header of the 25 field names
    followed by the records of the team's players: the source rows are
    processed one by one, each giving one player, and the records are
    those of the players in sorted order, a rearrangement of them.  No
    player is dropped or duplicated, and every record has 25 fields. *)
Theorem team_output_shape
    (players : list row) (existing : option entry) (f : csv_file) :
  team_output players existing = Ok f ->
  ∃ processed sorted,
    Forall2 (λ r out, process_one (existing_index existing) r = Ok out)
      players processed ∧
    sorted ≡ₚ processed ∧
    f = fieldnames :: map dict_writer_row sorted ∧
    length (tail f) = length players ∧
    Forall (λ record, length record = 25%nat) f.
Proof.
  intros H.
  destruct (team_output_inv _ _ _ H) as (processed & sorted & Hp & Hs & ->).
  destruct (sort_players_spec _ _ Hs) as (Hperm & _ & _).
  exists processed, sorted.
  split; [by apply process_players_each |].
  split; [done |]. split; [done |]. split.
  - simpl. rewrite length_map, Hperm.
    by apply (process_players_length (existing_index existing)).
  - constructor; [reflexivity |].
    apply Forall_fmap, Forall_true. intros d. reflexivity.
Qed.

(** ** Derived ratings stay in the range of their inputs *)

Lemma in_range_elim r lo hi k :
  in_range r lo hi = true -> k ∈ mean_fields ->
  ∃ z, int_field r k = Ok z ∧ (lo ≤ z ≤ hi)%Z.
Proof.
  unfold in_range. rewrite forallb_forall. intros Hall Hk.
  specialize (Hall k (proj1 (list_elem_of_In _ _) Hk)).
  destruct (int_field r k) as [z |]; [| done].
  exists z. split; [done |]. apply andb_true_iff in Hall as [H1 H2]. lia.
Qed.

(** X8.  When the nine fields of the means are integers of [lo .. hi], a range
    within [-2^50 .. 2^50], and the copied columns are present,
    [process_player] succeeds and both derived ratings are decimal
    strings of integers of [lo .. hi]. *)
Theorem derived_ratings_in_range (r : row) (lo hi : Z) :
  in_range r lo hi = true ->
  has_columns r = true ->
  (- 2 ^ 50 ≤ lo)%Z -> (hi ≤ 2 ^ 50)%Z ->
  ∃ p ast ath,
    process_player r = Ok p ∧
    p !! "astRating" = Some (VStr (py_str ast)) ∧
    p !! "athleticism" = Some (VStr (py_str ath)) ∧
    (lo ≤ ast ≤ hi)%Z ∧ (lo ≤ ath ≤ hi)%Z.
Proof.
  intros Hrange Hcols Hlo Hhi.
  destruct (in_range_elim r lo hi "passAccuracy" Hrange) as (a & Ha & Ba); [by_compute |].
  destruct (in_range_elim r lo hi "passIQ" Hrange) as (b & Hb & Bb); [by_compute |].
  destruct (in_range_elim r lo hi "passVision" Hrange) as (c & Hc & Bc); [by_compute |].
  destruct (in_range_elim r lo hi "speed" Hrange) as (s1 & H1 & B1); [by_compute |].
  destruct (in_range_elim r lo hi "agility" Hrange) as (s2 & H2 & B2); [by_compute |].
  destruct (in_range_elim r lo hi "strength" Hrange) as (s3 & H3 & B3); [by_compute |].
  destruct (in_range_elim r lo hi "vertical" Hrange) as (s4 & H4 & B4); [by_compute |].
  destruct (in_range_elim r lo hi "stamina" Hrange) as (s5 & H5 & B5); [by_compute |].
  destruct (in_range_elim r lo hi "hustle" Hrange) as (s6 & H6 & B6); [by_compute |].
  set (ast := ((a + b + c) `div` 3)%Z).
  set (ath := ((s1 + s2 + s3 + s4 + s5 + s6) `div` 6)%Z).
  destruct (build_dict_ok r ast ath projection) as [p Hp].
  { intros k col. by apply has_columns_spec. }
  exists p, ast, ath.
  assert (Hpow : (2 ^ 52 = 4 * 2 ^ 50)%Z) by reflexivity.
  split.
  { unfold process_player. rewrite Ha, Hb, Hc. simpl.
    rewrite (floor_truediv_exact _ 3) by (auto; lia). simpl.
    rewrite H1, H2, H3, H4, H5, H6. simpl.
    rewrite (floor_truediv_exact _ 6) by (auto; lia). simpl.
    exact Hp. }
  split.
  { destruct (build_dict_lookup _ _ _ _ _ "astRating" AstRating Hp projection_nodup)
      as (v & Hv & Hl); [by_compute |].
    simpl in Hv. by injection Hv as <-. }
  split.
  { destruct (build_dict_lookup _ _ _ _ _ "athleticism" Athleticism Hp projection_nodup)
      as (v & Hv & Hl); [by_compute |].
    simpl in Hv. by injection Hv as <-. }
  unfold ast, ath. split; split.
  - apply Z.div_le_lower_bound; lia.
  - apply Z.div_le_upper_bound; lia.
  - apply Z.div_le_lower_bound; lia.
  - apply Z.div_le_upper_bound; lia.
Qed.

(** ** Sorting a list that is in order *)

Lemma sort_desc_sorted_id {A} (q : list (Z * A)) :
  Sorted desc_ord q -> sort_desc q = q.
Proof.
  induction 1 as [| x q Hs IH Hhd]; simpl; [done |].
  rewrite IH. destruct Hhd as [| y q Hxy]; simpl; [done |].
  unfold desc_ord in Hxy.
  destruct (Z.ltb_spec x.1 y.1) as [Hlt | Hge]; [lia | done].
Qed.

Lemma zip_sorted (keys : list Z) (l : list row) :
  Sorted (λ a b, (b ≤ a)%Z) keys -> length keys = length l ->
  Sorted desc_ord (zip keys l).
Proof.
  intros Hs. revert l. induction Hs as [| k keys Hs IH Hhd]; intros l Hlen.
  - constructor.
  - destruct l as [| x l]; [done |]. simpl. constructor; [apply IH; by injection Hlen |].
    destruct Hhd as [| k' keys Hk]; [constructor |].
    destruct l as [| y l]; [constructor |]. simpl. by constructor.
Qed.

Lemma sort_keys_length l keys : sort_keys l = Ok keys -> length keys = length l.
Proof.
  revert keys. induction l as [| x l IH]; intros keys H; simpl in H; inv_res;
    subst keys; [done |]. simpl. f_equal. by apply IH.
Qed.

(** X9.  Players whose ratings are already in descending order (ties allowed)
    are left in their order by the sort. *)
Theorem sort_players_in_order (l : list row) (keys : list Z) :
  sort_keys l = Ok keys ->
  Sorted (λ a b, (b ≤ a)%Z) keys ->
  sort_players l = Ok l.
Proof.
  intros Hkeys Hs. unfold sort_players. rewrite Hkeys. simpl.
  rewrite sort_desc_sorted_id
    by (apply zip_sorted; [done | by apply sort_keys_length]).
  f_equal. apply snd_zip. rewrite (sort_keys_length _ _ Hkeys). done.
Qed.

(** ** Reading the existing file *)

(** X10.  [read_existing_team_data] changes no file and writes nothing.  The
    check for the file guards against a missing file only: at a path
    where [open] or the reader raises, the exception leaves the function;
    at a file that is read in full, or at no file, the function returns
    the index.  The index is empty when there is no file or a file
    without record, and it has no entry under the empty key. *)
Theorem read_existing_team_data_safe (path : string) (st : state) :
  ∃ evs,
    (read_existing_team_data path st).2
    = {| fs := fs st; trace := (trace st ++ evs)%list |} ∧
    (∀ p, EvWrite p ∉ evs) ∧
    (∀ records e, fs st !! path = Some (Unreadable records e) ->
       (read_existing_team_data path st).1 = Raise e) ∧
    ((∀ records e, fs st !! path ≠ Some (Unreadable records e)) ->
     ∃ info,
       (read_existing_team_data path st).1 = Ok info ∧
       info = existing_index (fs st !! path) ∧
       info !! EmptyString = None ∧
       (fs st !! path = None -> info = ∅) ∧
       (∀ f, fs st !! path = Some (Readable f) -> (List.length f ≤ 1)%nat ->
          info = ∅)).
Proof.
  rewrite read_existing_team_data_spec.
  exists (read_events path (fs st !! path)).
  split; [done |]. split; [apply read_events_no_write |]. split.
  - by intros records e ->.
  - intros Hreadable. exists (existing_index (fs st !! path)). split.
    + simpl. destruct (fs st !! path) as [[f | f e] |]; try done.
      by destruct (Hreadable f e).
    + split; [done |]. split; [apply index_no_empty_key |]. split.
      * by intros ->.
      * intros f -> Hlen.
        destruct f as [| h [| record f]]; simpl in *; [done | done | lia].
Qed.

(** ** The events of a team's step *)

Lemma sort_players_length l out : sort_players l = Ok out -> length out = length l.
Proof.
  intros H. destruct (sort_players_spec _ _ H) as (Hperm & _ & _). by rewrite Hperm.
Qed.

(** X11.  A successful step of a mapped team checks the team's file, reads it
    if it exists, and only then writes it, once; the two progress lines
    report the number of rows of the team, so the number of players saved
    is the number of players read. *)
Theorem process_team_events
    (dir : string) (t : pyval) (short : string) (players : list row)
    (st : state) (f : csv_file) :
  team_code t = Some short ->
  team_output players (fs st !! team_file dir short) = Ok f ->
  process_team dir t players st
  = (Ok tt,
     {| fs := <[team_file dir short := Readable f]> (fs st);
        trace := (trace st ++
                  team_events t short (team_file dir short) (List.length players)
                    (bool_decide (is_Some (fs st !! team_file dir short))))%list |}).
Proof.
  intros Ht Hout. unfold process_team. rewrite Ht.
  destruct (team_output_inv _ _ _ Hout) as (processed & sorted & Ha & Ha0 & ->).
  pose proof (process_players_length _ _ _ Ha) as Hlen1.
  pose proof (sort_players_length _ _ Ha0) as Hlen2.
  unfold io_bind. rewrite read_existing_team_data_spec.
  assert (Hreturn :
    match fs st !! team_file dir short with
    | Some (Unreadable _ e) => Raise e
    | existing => Ok (existing_index existing)
    end = Ok (existing_index (fs st !! team_file dir short))).
  { destruct (fs st !! team_file dir short) as [[old | old e] |]; done. }
  rewrite Hreturn.
  unfold io_lift, print, emit, write_file. cbn [fs trace].
  rewrite Ha. cbn [fs trace]. rewrite Ha0. cbn [fs trace].
  unfold team_events, read_events, fmt_len. rewrite Hlen2, Hlen1.
  rewrite <- !app_assoc.
  destruct (fs st !! team_file dir short) as [old |].
  - rewrite bool_decide_eq_true_2 by eauto. reflexivity.
  - rewrite bool_decide_eq_false_2 by (intros [? ?]; discriminate). reflexivity.
Qed.

(** ** The columns [process_player] reads *)

Lemma build_dict_ext r1 r2 ast ath fields :
  (∀ k c, (k, Col c) ∈ fields -> r1 !! c = r2 !! c) ->
  build_dict r1 ast ath fields = build_dict r2 ast ath fields.
Proof.
  induction fields as [| [k s] fields IH]; intros Hcols; simpl; [done |].
  rewrite IH by (intros k' c Hin; apply (Hcols k' c); by right).
  destruct s as [c | v | |]; simpl; try done.
  unfold getitem. rewrite (Hcols k c) by (by left). done.
Qed.

Lemma source_columns_elem c :
  c ∈ source_columns ↔ ∃ k, (k, Col c) ∈ projection.
Proof.
  unfold source_columns. rewrite list_elem_of_omap. split.
  - intros ([k s] & Hin & Hs). simpl in Hs. destruct s; try done.
    injection Hs as ->. by exists k.
  - intros [k Hin]. by exists (k, Col c).
Qed.

(** X12.  [process_player] depends on the nine fields of the means and on the
    copied source columns only: rows that agree on these give the same
    result, whatever their other columns (the team, or any column added
    to the roster). *)
Theorem process_player_reads_only (r1 r2 : row) :
  (∀ c, c ∈ mean_fields ∨ c ∈ source_columns -> r1 !! c = r2 !! c) ->
  process_player r1 = process_player r2.
Proof.
  intros Hsame.
  assert (Hint : ∀ k, k ∈ mean_fields -> int_field r1 k = int_field r2 k).
  { intros k Hk. unfold int_field, getitem. rewrite (Hsame k) by (by left). done. }
  unfold process_player.
  rewrite !Hint by by_compute.
  repeat match goal with
  | |- rbind ?x _ = rbind ?x _ => destruct x; cbn [rbind]; [| done]
  end.
  apply build_dict_ext. intros k c Hin. apply Hsame. right.
  apply source_columns_elem. by exists k.
Qed.

(** ** A missing source column *)

Lemma process_player_has_columns r p :
  process_player r = Ok p -> has_columns r = true.
Proof.
  intros Hp. unfold has_columns. apply forallb_forall. intros c Hc.
  apply list_elem_of_In, source_columns_elem in Hc as [k Hin].
  apply bool_decide_eq_true_2. by destruct (process_player_col r p k c Hp Hin).
Qed.

(** X13.  A row of a mapped team that lacks one of the copied source columns is
    fatal like a malformed number: the team's step raises and changes no
    file. *)
Theorem missing_column_is_fatal
    (dir : string) (t : pyval) (short : string) (players : list row) (r : row)
    (st : state) :
  team_code t = Some short ->
  r ∈ players ->
  has_columns r = false ->
  ∃ e st', process_team dir t players st = (Raise e, st') ∧ fs st' = fs st.
Proof.
  intros Ht Hin Hcols.
  destruct (process_team_mapped dir t short players st Ht) as (evs & Hspec).
  assert (Hraise : ∃ e, team_output players (fs st !! team_file dir short) = Raise e).
  { destruct (team_output players _) as [f | e] eqn:Hout; [| eauto].
    exfalso.
    destruct (team_output_inv _ _ _ Hout) as (processed & sorted & Hp & _ & _).
    destruct (process_players_elem _ _ _ _ Hp Hin) as (out & _ & Hone).
    destruct (process_one_inv _ _ _ Hone) as (fresh & Hf & _).
    rewrite (process_player_has_columns _ _ Hf) in Hcols. discriminate. }
  destruct Hraise as [e He]. rewrite He in Hspec. destruct Hspec as [Hspec _].
  eexists _, _. split; [exact Hspec | done].
Qed.

End Facts.

(** ** Rosters of plain decimal numerals

    On rows whose numeric fields are plain decimal numerals the program
    behaves alike for every [int]: what is evaluated below with
    [ascii_int] holds whatever [int] makes of other strings. *)

Section AnyInt.
Context (python other : PythonInt).

Lemma int_field_any (r : row) (k : string) :
  decimal_field r k = true ->
  int_field (python := other) r k = int_field (python := python) r k.
Proof.
  unfold decimal_field. intros H.
  destruct (r !! k) as [[| s] |] eqn:E; try discriminate.
  apply bool_decide_eq_true in H as [z Hz].
  rewrite (int_field_decimal (python := python) r k s z E Hz).
  by rewrite (int_field_decimal (python := other) r k s z E Hz).
Qed.

Lemma decimal_fields_elim r k :
  decimal_fields r = true -> k ∈ required_numeric -> decimal_field r k = true.
Proof.
  unfold decimal_fields. rewrite forallb_forall. intros Hall Hk.
  apply Hall. by apply list_elem_of_In.
Qed.

Lemma process_player_any (r : row) :
  decimal_fields r = true ->
  process_player (python := other) r = process_player (python := python) r.
Proof.
  intros Hr. unfold process_player.
  rewrite !(int_field_any r) by (apply decimal_fields_elim; [done | by_compute]).
  reflexivity.
Qed.

Lemma process_players_any info (players : list row) :
  Forall (λ r, decimal_fields r = true) players ->
  process_players (python := other) info players
  = process_players (python := python) info players.
Proof.
  induction 1 as [| r players Hr _ IH]; simpl; [done |].
  unfold process_one. rewrite (process_player_any r Hr), IH. reflexivity.
Qed.

Lemma processed_rating_decimal info players processed :
  Forall (λ r, decimal_fields r = true) players ->
  process_players (python := python) info players = Ok processed ->
  Forall (λ x, decimal_field x "rating" = true) processed.
Proof.
  intros Hall Hp. apply Forall_forall. intros x Hx.
  destruct (process_players_elem_rev (python := python) _ _ _ _ Hp Hx)
    as (r & Hr & Hone).
  destruct (process_one_rating (python := python) _ _ _ Hone) as [_ Hrating].
  rewrite Forall_forall in Hall.
  pose proof (decimal_fields_elim r "overallAttribute" (Hall r Hr)) as Hd.
  unfold decimal_field in *. rewrite Hrating. apply Hd. by_compute.
Qed.

Lemma sort_players_any (l : list row) :
  Forall (λ x, decimal_field x "rating" = true) l ->
  sort_players (python := other) l = sort_players (python := python) l.
Proof.
  intros Hall. unfold sort_players. f_equal.
  induction Hall as [| x l Hx _ IH]; simpl; [done |].
  rewrite (int_field_any x "rating" Hx), IH. reflexivity.
Qed.

Lemma process_team_any dir t (players : list row) st :
  Forall (λ r, decimal_fields r = true) players ->
  process_team (python := other) dir t players st
  = process_team (python := python) dir t players st.
Proof.
  intros Hall. unfold process_team.
  destruct (team_code t) as [short |]; [| done].
  unfold io_bind.
  destruct (read_existing_team_data _ st) as [[info | e] st1]; [| done].
  destruct (print _ st1) as [[[] | e] st2]; [| done].
  unfold io_lift. rewrite (process_players_any info players Hall).
  destruct (process_players (python := python) info players)
    as [processed | e] eqn:Hp; [| done].
  rewrite (sort_players_any processed
             (processed_rating_decimal _ _ _ Hall Hp)).
  reflexivity.
Qed.

Lemma process_teams_any dir (teams : list (pyval * list row)) st :
  Forall (λ tp, Forall (λ r, decimal_fields r = true) tp.2) teams ->
  process_teams (python := other) dir teams st
  = process_teams (python := python) dir teams st.
Proof.
  intros Hall. revert st.
  induction Hall as [| [t ps] teams Hps _ IH]; intros st; simpl; [done |].
  unfold io_bind. rewrite (process_team_any dir t ps st Hps).
  destruct (process_team (python := python) dir t ps st) as [[[] | e] st1];
    [apply IH | done].
Qed.

Lemma process_roster_any (st : state) :
  (∀ f, fs st !! input_file = Some (Readable f) ->
        Forall (λ r, decimal_fields r = true) (dict_reader f)) ->
  process_roster (python := other) input_file output_dir st
  = process_roster (python := python) input_file output_dir st.
Proof.
  intros Hrows. unfold process_roster, io_bind, open_file.
  destruct (fs st !! input_file) as [f |] eqn:Hf; [| done].
  unfold io_lift.
  destruct (for_rows f (group_rows [])) as [groups | e] eqn:Hg; [| done].
  apply process_teams_any.
  destruct f as [records | records e]; simpl in Hg;
    [| by destruct (group_rows [] (dict_reader records))].
  pose proof (Hrows records eq_refl) as Hall.
  assert (Hgrouped : grouped groups (dict_reader records)).
  { apply (group_rows_grouped (dict_reader records) [] [] groups Hg).
    split; [constructor |]. intros t ps r H. by apply elem_of_nil in H. }
  apply Forall_forall. intros [t ps] Hin. apply Forall_forall. intros r Hr.
  rewrite Forall_forall in Hall. apply Hall.
  by destruct (proj2 Hgrouped t ps r Hin Hr).
Qed.

(** A run on a roster of plain decimal numerals is the same run for
    every [int]. *)
Lemma main_any (st : state) :
  (∀ f, fs st !! input_file = Some (Readable f) ->
        Forall (λ r, decimal_fields r = true) (dict_reader f)) ->
  main (python := other) st = main (python := python) st.
Proof.
  intros Hrows. unfold main, io_bind, path_exists, print, emit. cbn [fs trace].
  destruct (negb _); [done |].
  rewrite process_roster_any by exact Hrows. reflexivity.
Qed.

End AnyInt.
(** * The properties on the sample data

    The samples are evaluated with [ascii_int] as [int]. *)

Section Evaluation.
#[local] Existing Instance ascii_int.

(** ** The claims *)

Lemma C3_derived_ratings_floor_witness :
  ∃ p, process_player sample_row = Ok p ∧
    p !! "astRating" = Some (VStr "70") ∧
    p !! "athleticism" = Some (VStr "80").
Proof.
  apply (C3_derived_ratings_floor sample_row 70 70 71 80 80 80 80 80 85);
    vm_compute; reflexivity.
Defined.

(** C3, as stated, fails for large integers: the passing fields of
    [huge_row] parse as integers whose mean has floor 9007199254740991,
    but the true division rounds the quotient to 2^53 and [astRating] is
    9007199254740992. *)
Lemma C3_rounds_up_for_huge_sum :
  int_field huge_row "passAccuracy" = Ok 9007199254740992%Z ∧
  int_field huge_row "passIQ" = Ok 9007199254740992%Z ∧
  int_field huge_row "passVision" = Ok 9007199254740991%Z ∧
  py_str ((9007199254740992 + 9007199254740992 + 9007199254740991) `div` 3)
    = "9007199254740991" ∧
  process_player huge_row = Ok (unwrap (process_player huge_row)) ∧
  unwrap (process_player huge_row) !! "astRating"
    = Some (VStr "9007199254740992") ∧
  unwrap (process_player huge_row) !! "astRating" ≠
    Some (VStr (py_str
      ((9007199254740992 + 9007199254740992 + 9007199254740991) `div` 3))).
Proof.
  split; [vm_compute; reflexivity |].
  split; [vm_compute; reflexivity |].
  split; [vm_compute; reflexivity |].
  split; [vm_compute; reflexivity |].
  split; [apply ok_unwrap; vm_compute; reflexivity |].
  split; [vm_compute; reflexivity |].
  vm_compute. discriminate.
Qed.

Lemma C1_matched_player_keeps_protected_fields_witness :
  sample_row !! "name" = Some (VStr "John Doe") ∧
  existing_index (Some (Readable existing_file)) !! "John Doe"
    = Some existing_protected ∧
  process_one (existing_index (Some (Readable existing_file))) sample_row
    = Ok sample_matched ∧
  sample_matched !! "name" = Some (VStr "J. Doe") ∧
  sample_matched !! "englishName" = Some (VStr "John Doe") ∧
  sample_matched !! "position" = Some (VStr "SG") ∧
  sample_matched !! "playerType" = Some (VStr "Starter") ∧
  sample_matched !! "rotationType" = Some (VStr "Core") ∧
  sample_matched !! "rating" = sample_row !! "overallAttribute".
Proof.
  assert (H1 : sample_row !! "name" = Some (VStr "John Doe"))
    by (vm_compute; reflexivity).
  assert (H2 : existing_index (Some (Readable existing_file)) !! "John Doe"
               = Some existing_protected) by (vm_compute; reflexivity).
  assert (H3 : process_one (existing_index (Some (Readable existing_file))) sample_row
               = Ok sample_matched) by (apply ok_unwrap; vm_compute; reflexivity).
  destruct (C1_matched_player_keeps_protected_fields _ _ _ _ _ H1 H2 H3)
    as (Hn & He & Hp & Ht & Hr & fresh & _ & _ & Hcol & _).
  repeat (split; [assumption |]).
  apply Hcol; by_compute.
Defined.

Lemma C9_unmatched_player_defaults_witness :
  sample_row !! "name" = Some (VStr "John Doe") ∧
  process_one (existing_index None) sample_row = Ok sample_unmatched ∧
  sample_unmatched !! "englishName" = Some (VStr "John Doe") ∧
  sample_unmatched !! "playerType" = Some (VStr EmptyString) ∧
  sample_unmatched !! "rotationType" = Some (VStr EmptyString).
Proof.
  assert (H1 : sample_row !! "name" = Some (VStr "John Doe"))
    by (vm_compute; reflexivity).
  assert (H2 : process_one (existing_index None) sample_row = Ok sample_unmatched)
    by (apply ok_unwrap; vm_compute; reflexivity).
  split; [exact H1 |]. split; [exact H2 |].
  apply (C9_unmatched_player_defaults None sample_row (VStr "John Doe")
           sample_unmatched H1 (or_introl eq_refl) H2).
Defined.

Lemma C10_last_duplicate_wins_witness :
  dict_reader duplicate_key_file = ([duplicate_first] ++ duplicate_last :: [])%list ∧
  index_key duplicate_first = VStr "John Doe" ∧
  index_key duplicate_last = VStr "John Doe" ∧
  p_playerType (protected_of duplicate_last) = VStr "Starter" ∧
  index_rows ([duplicate_first] ++ duplicate_last :: []) !! "John Doe"
  = Some (protected_of duplicate_last).
Proof.
  split; [reflexivity |].
  split; [vm_compute; reflexivity |].
  split; [vm_compute; reflexivity |].
  split; [vm_compute; reflexivity |].
  refine (proj1 (C10_last_duplicate_wins [duplicate_first] [] duplicate_last
                   "John Doe" _ _ _)).
  - vm_compute; reflexivity.
  - discriminate.
  - intros r' Hr'. by apply elem_of_nil in Hr'.
Defined.

Lemma C2_index_keys_witness :
  is_Some (existing_index (Some (Readable name_only_file)) !! "John Doe").
Proof.
  apply (proj1 (C2_index_keys name_only_file "John Doe")).
  split; [discriminate |].
  exists (dict_reader_row ["name"; "position"] ["John Doe"; "SG"]).
  split; [by left |]. right. split; vm_compute; reflexivity.
Defined.

(** C2, as stated, fails: the only row of [blank_english_file] has an
    empty [englishName] and the name John Doe, and the index has no entry
    for John Doe; the player is then reconciled with nothing. *)
Lemma C2_blank_english_name_not_indexed :
  dict_reader blank_english_file = [blank_english_row] ∧
  blank_english_row !! "englishName" = Some (VStr EmptyString) ∧
  blank_english_row !! "name" = Some (VStr "John Doe") ∧
  blank_english_row !! "playerType" = Some (VStr "Starter") ∧
  existing_index (Some (Readable blank_english_file)) !! "John Doe" = None ∧
  process_one (existing_index (Some (Readable blank_english_file))) sample_row
    = Ok sample_blank ∧
  sample_blank !! "playerType" = Some (VStr EmptyString).
Proof.
  split; [reflexivity |].
  split; [vm_compute; reflexivity |].
  split; [vm_compute; reflexivity |].
  split; [vm_compute; reflexivity |].
  split; [vm_compute; reflexivity |].
  split; [apply ok_unwrap; vm_compute; reflexivity |].
  vm_compute; reflexivity.
Qed.

(** The step of a team whose rows are rated 9, 10 and 9, in this order:
    the file holds the player rated 10 first, then the two players rated
    9 in the order of the roster. *)
Lemma C4_output_sorted_by_rating_stable_witness :
  team_code (VStr "Utah Jazz") = Some "Jazz" ∧
  process_team output_dir (VStr "Utah Jazz") jazz_rows empty_state
    = (Ok tt, jazz_state) ∧
  summary (fs jazz_state !! team_file output_dir "Jazz")
    = [ [ "K"; "K"; "SF"; "10" ]; [ "J"; "J"; "SF"; "9" ];
        [ "M"; "M"; "SF"; "9" ] ] ∧
  ∃ processed out,
    process_players
      (existing_index (fs empty_state !! team_file output_dir "Jazz")) jazz_rows
      = Ok processed ∧
    sort_players processed = Ok out ∧
    fs jazz_state !! team_file output_dir "Jazz"
      = Some (Readable (fieldnames :: map dict_writer_row out)) ∧
    out ≡ₚ processed ∧
    (∀ i a b, out !! i = Some a -> out !! S i = Some b ->
       ∃ ka kb, int_field a "rating" = Ok ka ∧ int_field b "rating" = Ok kb
                ∧ (kb ≤ ka)%Z) ∧
    (∀ k : Z, filter (λ x, int_field x "rating" = Ok k) out
              = filter (λ x, int_field x "rating" = Ok k) processed) ∧
    (∀ i a b ka kb, out !! i = Some a -> out !! S i = Some b ->
       decimal_rating a = Some ka -> decimal_rating b = Some kb ->
       (kb ≤ ka)%Z) ∧
    (∀ k : Z, filter (λ x, decimal_rating x = Some k) out
              = filter (λ x, decimal_rating x = Some k) processed).
Proof.
  assert (H1 : team_code (VStr "Utah Jazz") = Some "Jazz")
    by (vm_compute; reflexivity).
  assert (H2 : process_team output_dir (VStr "Utah Jazz") jazz_rows empty_state
               = (Ok tt, jazz_state))
    by (apply io_ok_snd; vm_compute; reflexivity).
  split; [exact H1 |]. split; [exact H2 |].
  split; [vm_compute; reflexivity |].
  exact (C4_output_sorted_by_rating_stable output_dir (VStr "Utah Jazz") "Jazz"
           jazz_rows empty_state jazz_state H1 H2).
Defined.

(** Ratings are compared as integers: 10 sorts above 9, and the two
    players rated 9 keep their order. *)
Example rating_10_sorts_above_9 :
  (λ record, (record !! 0%nat, record !! 5%nat))
    <$> tail (records_of (fs jazz_state !! "public/data/rosters/Jazz.csv"))
  = [ (Some "K", Some "10"); (Some "J", Some "9"); (Some "M", Some "9") ].
Proof. vm_compute. reflexivity. Qed.

Lemma C7_missing_input_file_witness :
  main empty_state
  = (Ok tt,
     {| fs := ∅;
        trace :=
          [ EvExists input_file;
            EvPrint "Error: Input file 'public/data/rosters/temp.csv' not found!" ] |}).
Proof.
  apply (C7_missing_input_file empty_state). vm_compute. reflexivity.
Defined.

Lemma C6_unmapped_team_skipped_witness :
  process_team output_dir (VStr "Unknown Team XYZ") [sample_row] empty_state
  = (Ok tt,
     {| fs := ∅;
        trace := [ EvPrint "Warning: No mapping found for team 'Unknown Team XYZ'" ] |}).
Proof.
  apply (proj1 (C6_unmapped_team_skipped output_dir (VStr "Unknown Team XYZ")
                  [sample_row] ltac:(vm_compute; reflexivity)) empty_state).
Defined.

(** A whole run on a roster with an unknown team: the warning is printed,
    the known team is written, and only the input and that team's file
    exist afterwards. *)
Example unknown_team_run :
  let run := main (state_with_input unknown_team_roster) in
  run.1 = Ok tt ∧
  "Warning: No mapping found for team 'Unknown Team XYZ'" ∈ printed (trace run.2) ∧
  (dom (fs run.2) : gset string)
    = {[ input_file; "public/data/rosters/Warriors.csv" ]} ∧
  (λ record, record !! 0%nat)
    <$> tail (records_of (fs run.2 !! "public/data/rosters/Warriors.csv"))
  = [ Some "W" ].
Proof.
  simpl. split; [vm_compute; reflexivity |].
  split; [by_compute |].
  split; [by_compute | vm_compute; reflexivity].
Qed.

(** A roster whose second row has the rating [ten]: the run ends with
    the [ValueError] of [int]. *)
Lemma C8_malformed_numeric_field_is_fatal_witness :
  bad_numeric bad_rating_row = true ∧
  (main (state_with_input bad_rating_roster)).1 = Raise (ValueError "ten") ∧
  ∃ e st', main (state_with_input bad_rating_roster) = (Raise e, st').
Proof.
  split; [vm_compute; reflexivity |].
  split; [vm_compute; reflexivity |].
  refine (proj1 (C8_malformed_numeric_field_is_fatal
    (state_with_input bad_rating_roster) bad_rating_roster bad_rating_row
    (VStr "Utah Jazz") "Jazz" _ _ _ _ _)).
  - vm_compute; reflexivity.
  - apply list_elem_of_further, list_elem_of_here.
  - vm_compute; reflexivity.
  - vm_compute; reflexivity.
  - vm_compute; reflexivity.
Defined.

(** The run on [bad_rating_roster]: the exception of [int] ends the run
    while the team is processed, before its file is opened for writing. *)
Example bad_rating_run :
  let run := main (state_with_input bad_rating_roster) in
  run.1 = Raise (ValueError "ten") ∧
  map_to_list (fs run.2) = [ (input_file, Readable bad_rating_roster) ] ∧
  trace run.2
  = [ EvExists input_file;
      EvPrint "Starting roster processing...";
      EvPrint "Input file: public/data/rosters/temp.csv";
      EvPrint "Output directory: public/data/rosters";
      EvPrint "------------------------------------------------------------";
      EvRead input_file;
      EvExists "public/data/rosters/Jazz.csv";
      EvPrint "Processing Utah Jazz -> Jazz.csv (2 players)" ].
Proof. simpl. repeat split; vm_compute; reflexivity. Qed.

Lemma C5_second_run_changes_nothing_witness :
  ∃ st2, main (main sample_state).2 = (Ok tt, st2)
         ∧ fs st2 = fs (main sample_state).2.
Proof.
  apply (C5_second_run_changes_nothing sample_state (main sample_state).2).
  - vm_compute; reflexivity.
  - vm_compute; reflexivity.
  - apply io_ok_snd. vm_compute; reflexivity.
Defined.

(** The first run on [sample_state]: the hand-edited name and role of
    John Doe are kept, the new player gets the defaults. *)
Example sample_first_run :
  summary (fs (main sample_state).2 !! "public/data/rosters/Hawks.csv")
  = [ [ "J. Doe"; "John Doe"; "SG"; "88" ]; [ "Rookie"; "Rookie"; "C"; "70" ] ].
Proof. vm_compute. reflexivity. Qed.

(** C5, as stated, fails: the two rows of [duplicate_name_roster] share
    the name and differ in position.  The first run, with no team file,
    writes the positions PG and C; the second run reconciles both rows
    with the last row of that file and writes C and C. *)
Lemma C5_duplicate_names_second_run_differs :
  let run1 := main (state_with_input duplicate_name_roster) in
  let run2 := main run1.2 in
  run1.1 = Ok tt ∧ run2.1 = Ok tt ∧
  summary (fs run1.2 !! "public/data/rosters/Hawks.csv")
    = [ [ "A"; "A"; "PG"; "90" ]; [ "A"; "A"; "C"; "80" ] ] ∧
  summary (fs run2.2 !! "public/data/rosters/Hawks.csv")
    = [ [ "A"; "A"; "C"; "90" ]; [ "A"; "A"; "C"; "80" ] ] ∧
  fs run2.2 ≠ fs run1.2.
Proof.
  simpl. repeat split; try (vm_compute; reflexivity).
  intros Heq.
  apply (f_equal (λ m, summary (m !! "public/data/rosters/Hawks.csv"))) in Heq.
  vm_compute in Heq. discriminate Heq.
Qed.

(** The second run also differs when the team file of the first run's
    start has no [englishName] column: the first run writes an empty
    [englishName], which the second run does not index. *)
Example legacy_file_second_run_differs :
  let run1 := main legacy_state in
  let run2 := main run1.2 in
  run1.1 = Ok tt ∧ run2.1 = Ok tt ∧
  summary (fs run1.2 !! "public/data/rosters/Hawks.csv")
    = [ [ "John Doe"; EmptyString; "SG"; "88" ] ] ∧
  summary (fs run2.2 !! "public/data/rosters/Hawks.csv")
    = [ [ "John Doe"; "John Doe"; "PG"; "88" ] ].
Proof. simpl. repeat split; vm_compute; reflexivity. Qed.

(** ** The further properties *)

Lemma group_rows_spec_witness :
  group_rows [] (dict_reader sample_roster) = Ok sample_groups ∧
  sample_groups.*1 = [ VStr "Utah Jazz"; VStr "Atlanta Hawks" ] ∧
  (sample_groups.*1
     = first_seen (omap (λ r, r !! "team") (dict_reader sample_roster)) ∧
   NoDup sample_groups.*1 ∧
   ∀ t ps, (t, ps) ∈ sample_groups
           ↔ ps = rows_of t (dict_reader sample_roster) ∧ ps ≠ []).
Proof.
  assert (H : group_rows [] (dict_reader sample_roster) = Ok sample_groups)
    by (apply (ok_get []); vm_compute; reflexivity).
  split; [exact H |]. split; [vm_compute; reflexivity |].
  exact (group_rows_spec (dict_reader sample_roster) sample_groups H).
Defined.

Lemma main_missing_team_column_witness :
  ∃ st', main (state_with_input teamless_roster) = (Raise (KeyError "team"), st')
         ∧ fs st' = fs (state_with_input teamless_roster).
Proof.
  apply (main_missing_team_column (state_with_input teamless_roster)
           [ "name"; "position" ] [ [ "John Doe"; "SG" ] ] [ "John Doe"; "SG" ]).
  - vm_compute; reflexivity.
  - by_compute.
  - apply list_elem_of_here.
  - discriminate.
Defined.

Lemma main_empty_roster_witness :
  ∃ st', main (state_with_input header_only_roster) = (Ok tt, st')
         ∧ fs st' = fs (state_with_input header_only_roster).
Proof.
  apply (main_empty_roster (state_with_input header_only_roster) header_only_roster).
  - vm_compute; reflexivity.
  - reflexivity.
Defined.

Lemma main_changes_team_files_only_witness :
  fs (main sample_state).2 !! input_file = Some (Readable sample_roster).
Proof.
  rewrite (proj1 (proj2 (main_changes_team_files_only sample_state input_file))).
  vm_compute; reflexivity.
Defined.

Lemma main_team_files_witness :
  ∃ groups, group_rows [] (dict_reader sample_roster) = Ok groups ∧
    ∀ t ps short, (t, ps) ∈ groups -> team_code t = Some short ->
      ∃ out,
        team_output ps (fs sample_state !! team_file output_dir short) = Ok out
        ∧ fs (main sample_state).2 !! team_file output_dir short
          = Some (Readable out).
Proof.
  apply (main_team_files sample_state (main sample_state).2 sample_roster).
  - vm_compute; reflexivity.
  - apply io_ok_snd. vm_compute; reflexivity.
Defined.

Lemma processed_player_keys_witness :
  is_Some (sample_matched !! "astRating") ∧ ¬ is_Some (sample_matched !! "team").
Proof.
  assert (H : process_one (existing_index (Some (Readable existing_file))) sample_row
              = Ok sample_matched) by (apply ok_unwrap; vm_compute; reflexivity).
  split.
  - apply (processed_player_keys _ _ _ "astRating" H). by_compute.
  - intros Hs. apply (processed_player_keys _ _ _ "team" H) in Hs.
    revert Hs. by_compute.
Defined.

(** The file of the team of three players: a header and three records,
    one per player. *)
Lemma team_output_shape_witness :
  summary (Some (Readable jazz_file))
    = [ [ "K"; "K"; "SF"; "10" ]; [ "J"; "J"; "SF"; "9" ];
        [ "M"; "M"; "SF"; "9" ] ] ∧
  ∃ processed sorted,
    Forall2 (λ r out,
               process_one
                 (existing_index (fs empty_state !! team_file output_dir "Jazz")) r
               = Ok out)
      jazz_rows processed ∧
    sorted ≡ₚ processed ∧
    jazz_file = fieldnames :: map dict_writer_row sorted ∧
    length (tail jazz_file) = length jazz_rows ∧
    Forall (λ record, length record = 25%nat) jazz_file.
Proof.
  split; [vm_compute; reflexivity |].
  apply (team_output_shape jazz_rows (fs empty_state !! team_file output_dir "Jazz")).
  apply (ok_get []). vm_compute; reflexivity.
Defined.

(** The fields of [sample_row] are ratings of 0 to 99, and so are the
    derived ratings, 70 and 80. *)
Lemma derived_ratings_in_range_witness :
  in_range sample_row 0 99 = true ∧
  in_range sample_row 0 69 = false ∧
  unwrap (process_player sample_row) !! "astRating" = Some (VStr "70") ∧
  unwrap (process_player sample_row) !! "athleticism" = Some (VStr "80") ∧
  ∃ p ast ath,
    process_player sample_row = Ok p ∧
    p !! "astRating" = Some (VStr (py_str ast)) ∧
    p !! "athleticism" = Some (VStr (py_str ath)) ∧
    (0 ≤ ast ≤ 99)%Z ∧ (0 ≤ ath ≤ 99)%Z.
Proof.
  split; [vm_compute; reflexivity |].
  split; [vm_compute; reflexivity |].
  split; [vm_compute; reflexivity |].
  split; [vm_compute; reflexivity |].
  apply (derived_ratings_in_range sample_row 0 99).
  - vm_compute; reflexivity.
  - vm_compute; reflexivity.
  - lia.
  - lia.
Defined.

Lemma sort_players_in_order_witness : sort_players rated_players = Ok rated_players.
Proof.
  apply (sort_players_in_order rated_players [10; 9; 9]%Z).
  - vm_compute; reflexivity.
  - repeat constructor; lia.
Defined.

(** The team file of [sample_state] is read into the index of its one
    player. *)
Lemma read_existing_team_data_safe_witness :
  (read_existing_team_data "public/data/rosters/Hawks.csv" sample_state).1
  = Ok (existing_index (Some (Readable existing_file))) ∧
  existing_index (Some (Readable existing_file)) !! EmptyString = None.
Proof.
  destruct (read_existing_team_data_safe "public/data/rosters/Hawks.csv" sample_state)
    as (evs & _ & _ & _ & Hreturn).
  destruct Hreturn as (info & Hrun & Hinfo & Hempty & _).
  { intros records e. vm_compute. discriminate. }
  rewrite Hrun. rewrite Hinfo in Hempty |- *. split; [| exact Hempty].
  reflexivity.
Defined.

(** At a team path that is a directory, the exception of [open] leaves
    [read_existing_team_data], and the step. *)
Example directory_at_team_path :
  (read_existing_team_data "public/data/rosters/Jazz.csv" directory_state).1
  = Raise (IsADirectoryError "public/data/rosters/Jazz.csv") ∧
  (process_team output_dir (VStr "Utah Jazz") jazz_rows directory_state).1
  = Raise (IsADirectoryError "public/data/rosters/Jazz.csv") ∧
  trace (process_team output_dir (VStr "Utah Jazz") jazz_rows directory_state).2
  = [ EvExists "public/data/rosters/Jazz.csv";
      EvRead "public/data/rosters/Jazz.csv" ].
Proof. repeat split; vm_compute; reflexivity. Qed.

Lemma process_team_events_witness :
  process_team output_dir (VStr "Utah Jazz") jazz_rows empty_state
  = (Ok tt,
     {| fs := <[team_file output_dir "Jazz" := Readable jazz_file]> (fs empty_state);
        trace := (trace empty_state ++
                  team_events (VStr "Utah Jazz") "Jazz" (team_file output_dir "Jazz")
                    (List.length jazz_rows)
                    (bool_decide
                       (is_Some (fs empty_state !! team_file output_dir "Jazz"))))%list |}).
Proof.
  apply (process_team_events output_dir (VStr "Utah Jazz") "Jazz" jazz_rows
           empty_state jazz_file).
  - vm_compute; reflexivity.
  - apply (ok_get []). vm_compute; reflexivity.
Defined.

(** The progress lines of that step. *)
Example jazz_step_events :
  team_events (VStr "Utah Jazz") "Jazz" (team_file output_dir "Jazz")
    (List.length jazz_rows) false
  = [ EvExists "public/data/rosters/Jazz.csv";
      EvPrint "Processing Utah Jazz -> Jazz.csv (3 players)";
      EvWrite "public/data/rosters/Jazz.csv";
      EvPrint "  -> Saved 3 players to public/data/rosters/Jazz.csv" ].
Proof. vm_compute. reflexivity. Qed.

Lemma process_player_reads_only_witness :
  process_player extra_column_row = process_player sample_row.
Proof.
  apply process_player_reads_only. intros c Hc.
  unfold extra_column_row. apply lookup_insert_ne.
  intros <-. revert Hc. by_compute.
Defined.

Lemma missing_column_is_fatal_witness :
  ∃ e st',
    process_team output_dir (VStr "Atlanta Hawks") [no_steal_row] empty_state
    = (Raise e, st') ∧ fs st' = fs empty_state.
Proof.
  apply (missing_column_is_fatal output_dir (VStr "Atlanta Hawks") "Hawks"
           [no_steal_row] no_steal_row empty_state).
  - vm_compute; reflexivity.
  - apply list_elem_of_here.
  - vm_compute; reflexivity.
Defined.

(** The exception of that step is the [KeyError] of the missing column. *)
Example no_steal_step :
  (process_team output_dir (VStr "Atlanta Hawks") [no_steal_row] empty_state).1
  = Raise (KeyError "steal").
Proof. vm_compute. reflexivity. Qed.

End Evaluation.

(** * The samples under every [int]

    The numeric fields of the sample rosters are plain decimal numerals,
    so the runs evaluated above are the runs for every [int]. *)

(** The team rated 9, 10 and 9 is written in the order 10, 9, 9. *)
Lemma jazz_order_any_int (python : PythonInt) :
  summary
    (fs (process_team (python := python) output_dir (VStr "Utah Jazz") jazz_rows
           empty_state).2
     !! team_file output_dir "Jazz")
  = [ [ "K"; "K"; "SF"; "10" ]; [ "J"; "J"; "SF"; "9" ]; [ "M"; "M"; "SF"; "9" ] ].
Proof.
  rewrite (process_team_any ascii_int python) by by_compute.
  vm_compute. reflexivity.
Qed.

(** The second run on the roster with two rows of one name differs from
    the first. *)
Lemma duplicate_names_any_int (python : PythonInt) :
  let run1 := main (python := python) (state_with_input duplicate_name_roster) in
  let run2 := main (python := python) run1.2 in
  run1.1 = Ok tt ∧ run2.1 = Ok tt ∧
  summary (fs run1.2 !! "public/data/rosters/Hawks.csv")
    = [ [ "A"; "A"; "PG"; "90" ]; [ "A"; "A"; "C"; "80" ] ] ∧
  summary (fs run2.2 !! "public/data/rosters/Hawks.csv")
    = [ [ "A"; "A"; "C"; "90" ]; [ "A"; "A"; "C"; "80" ] ].
Proof.
  assert (Hrows : Forall (λ r, decimal_fields r = true)
                    (dict_reader duplicate_name_roster)) by by_compute.
  cbv zeta.
  rewrite (main_any ascii_int python (state_with_input duplicate_name_roster)).
  2: { intros f Hf. vm_compute in Hf. by injection Hf as <-. }
  rewrite (main_any ascii_int python).
  2: { intros f Hf. vm_compute in Hf. by injection Hf as <-. }
  repeat split; vm_compute; reflexivity.
Qed.
